(** * Duplicate-Remover: a shallow embedding of [main.py]

    The script walks a directory, groups the files it finds by the MD5
    digest of their content, flags zero-length files as invalid, and then
    deletes every member of a duplicate group but the first one (and, on
    request, every invalid file), optionally asking for a confirmation on
    the terminal before each deletion.

    The embedding follows the script function by function.  The operating
    system is an explicit [world]: a disk (a finite map from paths to
    nodes), the terminal input (a stream of lines with a read cursor) and
    the terminal output (the list of lines printed so far).  Python
    exceptions are the [Raised] outcome of a small state-and-error monad.

    Conventions.  Nothing but the script changes the disk while it runs.
    The terminal never reaches its end: [input] always gets a line.  The
    two unbounded constructs, the recursion of [get_files] and the [while]
    loop of the confirmation, take a bound and give [OutOfFuel] when it is
    used up.  The digest function is a parameter of the functions that
    hash. *)

From Stdlib Require Import ZArith List Ascii String Strings.Byte Sorted.
From stdpp Require Import base option list gmap strings fin_maps.

Local Open Scope string_scope.
Local Open Scope list_scope.
Local Open Scope Z_scope.

(** ** The operating system *)

(** [os.stat_result]: the ten integer fields that indexing the result of
    [stat()] gives access to, in tuple order. *)
Record stat_result := mk_stat_result {
  st_mode : Z;
  st_ino : Z;
  st_dev : Z;
  st_nlink : Z;
  st_uid : Z;
  st_gid : Z;
  st_size : Z;
  st_atime : Z;
  st_mtime : Z;
  st_ctime : Z
}.

Definition stat_tuple (s : stat_result) : list Z :=
  [st_mode s; st_ino s; st_dev s; st_nlink s; st_uid s;
   st_gid s; st_size s; st_atime s; st_mtime s; st_ctime s].

(** [s[i]] on a [stat_result]; every index the script uses is in range. *)
Definition stat_getitem (s : stat_result) (i : nat) : Z :=
  nth i (stat_tuple s) 0.

(** A regular file: its bytes, its metadata, whether the process may read
    it and whether it may unlink it. *)
Record regular := mk_regular {
  content : list byte;
  metadata : stat_result;
  readable : bool;
  deletable : bool
}.

(** A node of the disk.  A directory records the names [os.scandir]
    reports for it, in the order it reports them; a name is a child as
    long as its path is bound on the disk. *)
Inductive node :=
| File (f : regular)
| Dir (st : stat_result) (names : list string).

(** [os.DirEntry], with the answers of [is_file()], [is_dir()] and
    [stat()] as scandir found them. *)
Record DirEntry := mk_DirEntry {
  path : string;
  is_file : bool;
  is_dir : bool;
  stat : stat_result
}.

Record world := mk_world {
  disk : gmap string node;
  stdin : nat -> string;
  cursor : nat;
  stdout : list string
}.

(** The exceptions the script can meet.  None is ever caught: the script
    has no [try] statement. *)
Inductive exn :=
| FileNotFoundError
| NotADirectoryError
| IsADirectoryError
| PermissionError
| SystemExit (code : Z).

(** What running a piece of the script gives: a value, an exception, or
    neither within the allotted number of loop iterations. *)
Inductive outcome (A : Type) :=
| Ok (a : A)
| Raised (e : exn)
| OutOfFuel.
Arguments Ok {A} a.
Arguments Raised {A} e.
Arguments OutOfFuel {A}.

Definition M (A : Type) : Type := world -> outcome A * world.

Definition ret {A} (a : A) : M A := fun w => (Ok a, w).

Definition bind {A B} (m : M A) (k : A -> M B) : M B :=
  fun w =>
    match m w with
    | (Ok a, w') => k a w'
    | (Raised e, w') => (Raised e, w')
    | (OutOfFuel, w') => (OutOfFuel, w')
    end.

Definition raise {A} (e : exn) : M A := fun w => (Raised e, w).

Definition out_of_fuel {A} : M A := fun w => (OutOfFuel, w).

Declare Scope py_scope.
Delimit Scope py_scope with py.
Notation "x <- m ;; k" := (bind m (fun x => k))
  (at level 100, m at next level, right associativity) : py_scope.
Notation "m ;; k" := (bind m (fun _ => k))
  (at level 100, right associativity) : py_scope.
Local Open Scope py_scope.

(** A [for] statement over a list. *)
Fixpoint for_each {A} (l : list A) (body : A -> M unit) : M unit :=
  match l with
  | [] => ret tt
  | x :: l' => body x ;; for_each l' body
  end.

(** A [for] statement that updates one local variable. *)
Fixpoint for_fold {A S} (l : list A) (body : S -> A -> M S) (s : S) : M S :=
  match l with
  | [] => ret s
  | x :: l' => s' <- body s x ;; for_fold l' body s'
  end.

(** [print(s)]. *)
Definition print (s : string) : M unit :=
  fun w => (Ok tt, mk_world (disk w) (stdin w) (cursor w) (stdout w ++ [s])).

(** [print(a, b)]: the two arguments separated by a space. *)
Definition print2 (a b : string) : M unit := print (a +:+ " " +:+ b).

(** [input(prompt)]: writes the prompt and reads the next line of the
    terminal. *)
Definition input (prompt : string) : M string :=
  fun w => (Ok (stdin w (cursor w)),
            mk_world (disk w) (stdin w) (S (cursor w)) (stdout w ++ [prompt])).

Definition os_path_exists (p : string) : M bool :=
  fun w => (Ok (bool_decide (is_Some (disk w !! p))), w).

Definition os_path_isdir (p : string) : M bool :=
  fun w => (Ok match disk w !! p with Some (Dir _ _) => true | _ => false end, w).

(** [os.path.join(a, b)] of [posixpath], for a [b] that is a file name. *)
Definition ends_with_sep (a : string) : bool :=
  match rev (list_ascii_of_string a) with
  | c :: _ => Ascii.eqb c "/"
  | [] => false
  end.

Definition starts_with_sep (b : string) : bool :=
  match b with
  | String c _ => Ascii.eqb c "/"
  | EmptyString => false
  end.

Definition os_path_join (a b : string) : string :=
  if starts_with_sep b then b
  else if orb (String.eqb a "") (ends_with_sep a) then a +:+ b
  else a +:+ "/" +:+ b.

(** The entry scandir yields for a child that is on the disk. *)
Definition entry_of (p : string) (n : node) : DirEntry :=
  match n with
  | File f => mk_DirEntry p true false (metadata f)
  | Dir st _ => mk_DirEntry p false true st
  end.

Definition scan (d : gmap string node) (dir : string) (names : list string)
  : list DirEntry :=
  omap (fun nm => entry_of (os_path_join dir nm) <$> d !! os_path_join dir nm) names.

(** [os.scandir(p)], read to its end. *)
Definition os_scandir (p : string) : M (list DirEntry) :=
  fun w =>
    match disk w !! p with
    | Some (Dir _ names) => (Ok (scan (disk w) p names), w)
    | Some (File _) => (Raised NotADirectoryError, w)
    | None => (Raised FileNotFoundError, w)
    end.

(** [open(p, 'rb').read()]. *)
Definition read_bytes (p : string) : M (list byte) :=
  fun w =>
    match disk w !! p with
    | Some (File f) =>
        if readable f then (Ok (content f), w) else (Raised PermissionError, w)
    | Some (Dir _ _) => (Raised IsADirectoryError, w)
    | None => (Raised FileNotFoundError, w)
    end.

(** [os.remove(p)]. *)
Definition os_remove (p : string) : M unit :=
  fun w =>
    match disk w !! p with
    | Some (File f) =>
        if deletable f
        then (Ok tt, mk_world (delete p (disk w)) (stdin w) (cursor w) (stdout w))
        else (Raised PermissionError, w)
    | Some (Dir _ _) => (Raised IsADirectoryError, w)
    | None => (Raised FileNotFoundError, w)
    end.

(** [exit(code)]. *)
Definition exit {A} (code : Z) : M A := raise (SystemExit code).

(** ** Python library functions the script relies on *)

(** [template.format(x)] for a template with one [{}] field. *)
Fixpoint format (template x : string) : string :=
  match template with
  | String "{" (String "}" rest) => x +:+ rest
  | String c rest => String c (format rest x)
  | EmptyString => EmptyString
  end.

(** [l.sort(key=key)].  Python's sort is stable, and the result of a stable
    sort depends on the list and the key alone; insertion from the right,
    each element going before the first one whose key is not smaller,
    computes it (see [list_sort_sorted] and [list_sort_stable]). *)
Fixpoint sort_insert {A} (key : A -> Z) (x : A) (l : list A) : list A :=
  match l with
  | [] => [x]
  | y :: l' => if key x <=? key y then x :: y :: l' else y :: sort_insert key x l'
  end.

Fixpoint list_sort {A} (key : A -> Z) (l : list A) : list A :=
  match l with
  | [] => []
  | x :: l' => sort_insert key x (list_sort key l')
  end.

(** [collections.defaultdict(list)]: keys in order of first insertion, as
    [values()] goes through them. *)
Definition defaultdict := list (string * list string).

(** [d[k].append(v)]. *)
Fixpoint dict_append (d : defaultdict) (k v : string) : defaultdict :=
  match d with
  | [] => [(k, [v])]
  | (k', vs) :: d' =>
      if String.eqb k' k then (k', vs ++ [v]) :: d'
      else (k', vs) :: dict_append d' k v
  end.

Definition dict_values (d : defaultdict) : list (list string) := map snd d.

(** The truth value of the iterator [os.scandir] returns.  The iterator
    class defines neither [__bool__] nor [__len__], so Python takes the
    object to be true, whatever it is going to yield. *)
Definition scandir_truth (it : list DirEntry) : bool := true.

(** Modelled from the spec: [utils.progressBar] is imported by the script
    but its source is not part of the sources at hand.  The specification
    says it "produces the original elements unchanged" and is "purely
    observational"; the rendering of the bar on the terminal is left out. *)
Definition progressBar {A} (iterable : list A) (prefix suffix : string)
  (length : Z) : list A := iterable.

(** ** The script *)

Definition dquote : string := String (ascii_of_nat 34) EmptyString.
Definition esc : string := String (ascii_of_nat 27) EmptyString.

Definition NO_DUPLICATES_MSG := "No Duplicate Files Found".
Definition INVALID_FILES_DETECTED_MSG := "Invalid Files Detected:".
Definition REMOVING_INVALID_FILES_MSG := "Removing invalid files...".
Definition REMOVING_DUPLICATE_FILES_MSG := "Removing Duplicate Files...".
Definition GETTING_FILES_MSG := "Getting files from: " +:+ dquote +:+ "{}" +:+ dquote.
Definition BLUE_BOLD_UNDERLINE_ANSI := esc +:+ "[1;4m".
Definition RED_BOLD_ANSI := esc +:+ "[31;49;1m".
Definition STOP_ESCAPE_ANSI := esc +:+ "[0m".

Definition FILE_SIZE_INDEX : nat := 6.
Definition FILE_MTIME_INDEX : nat := 8.

Definition CANCELLED_BY_USER_MSG := "File deletion cancelled by user: {}".
Definition DELETE_CONFIRMATION_MSG :=
  "Are you sure you want to delete {} ([y]es, [n]o)".
Definition SUCCESSFULLY_REMOVED_MSG := "Successfully removed: {}".

Definition DIRECTORY_IS_EMPTY_MSG := "Directory is empty".
Definition ERROR_PATH_NOT_FOUND_MSG := "ERROR: Path not found, ".
Definition INVALID_DIRECTORY_MSG :=
  "ERROR: Expected a directory but received a file, ".
Definition EMPTY_DIRECTORY_MSG := "ERROR: Received empty directory".

(** The parsed command line. *)
Record arguments := mk_arguments {
  arg_directory : string;
  arg_invalid_files : bool;
  arg_recursive : bool;
  arg_confirmation : bool
}.

Definition valid_file (file_entry : DirEntry) : bool :=
  stat_getitem (stat file_entry) FILE_SIZE_INDEX >? 0.

Definition valid_arguments (_directory : string) : M bool :=
  if String.eqb _directory "" then
    print (RED_BOLD_ANSI +:+ EMPTY_DIRECTORY_MSG) ;;
    ret false
  else
    isdir <- os_path_isdir _directory ;;
    if negb isdir then
      print2 (RED_BOLD_ANSI +:+ INVALID_DIRECTORY_MSG) _directory ;;
      ret false
    else
      exists_ <- os_path_exists _directory ;;
      if negb exists_ then
        print2 (RED_BOLD_ANSI +:+ ERROR_PATH_NOT_FOUND_MSG) _directory ;;
        ret false
      else ret true.

(** [get_files]; [depth] bounds the nesting of the recursive calls, and
    [directory] is the global variable of that name, which the function
    reads in its notice for an empty directory. *)
Fixpoint get_files (depth : nat) (directory : string)
    (_directory : string) (_recursive : bool) : M (list DirEntry) :=
  match depth with
  | O => out_of_fuel
  | S depth' =>
      print (format GETTING_FILES_MSG _directory) ;;
      dir_entry <- os_scandir _directory ;;
      (if negb (scandir_truth dir_entry)
       then print2 (RED_BOLD_ANSI +:+ DIRECTORY_IS_EMPTY_MSG) directory
       else ret tt) ;;
      for_fold dir_entry
        (fun _file_entries entry =>
           if is_file entry then ret (_file_entries ++ [entry])
           else if andb (is_dir entry) _recursive then
             sub <- get_files depth' directory (path entry) _recursive ;;
             ret (_file_entries ++ sub)
           else ret _file_entries)
        []
  end.

(** The prompt of a deletion and the [while] loop that repeats it;
    [fuel] bounds the number of repetitions. *)
Definition confirmation_prompt (file_path : string) : string :=
  format DELETE_CONFIRMATION_MSG
    (BLUE_BOLD_UNDERLINE_ANSI +:+ file_path +:+ STOP_ESCAPE_ANSI).

Fixpoint while_not_y_n (fuel : nat) (file_path res : string) : M string :=
  if bool_decide (res ∉ ["y"; "n"]) then
    match fuel with
    | O => out_of_fuel
    | S fuel' =>
        res' <- input (confirmation_prompt file_path) ;;
        while_not_y_n fuel' file_path res'
    end
  else ret res.

Definition remove_duplicates_files (fuel : nat)
    (_duplicate_files : list (list string)) (_prompt_flag : bool) : M unit :=
  for_each (progressBar _duplicate_files "Deleting Duplicate Files:" "Complete" 50)
    (fun duplicates =>
       for_each (tail duplicates)
         (fun file_path =>
            if _prompt_flag then
              res <- input (confirmation_prompt file_path) ;;
              res <- while_not_y_n fuel file_path res ;;
              if String.eqb res "y" then
                os_remove file_path ;;
                print (format SUCCESSFULLY_REMOVED_MSG file_path)
              else
                print (format CANCELLED_BY_USER_MSG file_path)
            else
              os_remove file_path ;;
              print (format SUCCESSFULLY_REMOVED_MSG file_path))).

Definition remove_invalid_files (fuel : nat)
    (_invalid_files : list string) (_prompt_flag : bool) : M unit :=
  for_each (progressBar _invalid_files "Deleting Invalid Files:" "Complete" 50)
    (fun file_path =>
       if _prompt_flag then
         res <- input (confirmation_prompt file_path) ;;
         res <- while_not_y_n fuel file_path res ;;
         if String.eqb res "y" then
           os_remove file_path ;;
           print (format SUCCESSFULLY_REMOVED_MSG file_path)
         else
           print (format CANCELLED_BY_USER_MSG file_path)
       else
         os_remove file_path ;;
         print (format SUCCESSFULLY_REMOVED_MSG file_path)).

Section Script.

(** [hashlib.md5(data).hexdigest()]. *)
Variable md5 : list byte -> string.

Definition get_hash (_filepath : string) : M string :=
  data <- read_bytes _filepath ;;
  ret (md5 data).

Definition get_duplicates (_file_entries : list DirEntry)
  : M (list string * list (list string)) :=
  let _file_entries :=
    list_sort (fun entry => stat_getitem (stat entry) FILE_MTIME_INDEX) _file_entries in
  let _invalid_files :=
    map path
      (filter (fun entry => negb (valid_file entry))
         (progressBar _file_entries "Identifying Invalid Files:" "Complete" 50)) in
  hash_dict <-
    for_fold (progressBar _file_entries "Getting File Hashes:" "Complete" 50)
      (fun hash_dict entry =>
         h <- get_hash (path entry) ;;
         ret (dict_append hash_dict h (path entry)))
      [] ;;
  let _duplicate_files :=
    filter (fun files => (1 <? length files)%nat)
      (progressBar (dict_values hash_dict) "Filtering Duplicate Files:" "Complete" 50) in
  ret (_invalid_files, _duplicate_files).

(** The body of the script, run on a parsed command line. *)
Definition main (fuel : nat) (args : arguments) : M unit :=
  let directory := arg_directory args in
  let recursive_flag := arg_recursive args in
  let prompt_flag := arg_confirmation args in
  let remove_invalid_file_flag := arg_invalid_files args in
  valid <- valid_arguments directory ;;
  (if negb valid then exit 1 else ret tt) ;;
  file_entries <- get_files fuel directory directory recursive_flag ;;
  found <- get_duplicates file_entries ;;
  let '(invalid_files, duplicate_files) := found in
  (match duplicate_files with
   | _ :: _ =>
       print REMOVING_DUPLICATE_FILES_MSG ;;
       remove_duplicates_files fuel duplicate_files prompt_flag
   | [] => print NO_DUPLICATES_MSG
   end) ;;
  (if remove_invalid_file_flag then
     print REMOVING_INVALID_FILES_MSG ;;
     remove_invalid_files fuel invalid_files prompt_flag
   else
     match invalid_files with
     | _ :: _ =>
         print INVALID_FILES_DETECTED_MSG ;;
         for_each invalid_files print
     | [] => ret tt
     end) ;;
  print "Operation Completed".

End Script.

(** The exit status of the process, when the run ends. *)
Definition exit_status (o : outcome unit) : option Z :=
  match o with
  | Ok _ => Some 0
  | Raised (SystemExit code) => Some code
  | Raised _ => Some 1
  | OutOfFuel => None
  end.

(** ** Notions used in the statements *)

(** The bytes [read_bytes] returns for a path, and whether it returns. *)
Definition file_bytes (d : gmap string node) (p : string) : list byte :=
  match d !! p with
  | Some (File f) => content f
  | _ => []
  end.

Definition can_read (d : gmap string node) (p : string) : bool :=
  match d !! p with
  | Some (File f) => readable f
  | _ => false
  end.

(** Whether [os_remove] succeeds on a path. *)
Definition can_remove (d : gmap string node) (p : string) : bool :=
  match d !! p with
  | Some (File f) => deletable f
  | _ => false
  end.

Definition is_regular (d : gmap string node) (p : string) : bool :=
  match d !! p with
  | Some (File _) => true
  | _ => false
  end.

(** The exception [os_remove] raises on a path it cannot remove. *)
Definition remove_error (d : gmap string node) (p : string) : exn :=
  match d !! p with
  | Some (File _) => PermissionError
  | Some (Dir _ _) => IsADirectoryError
  | None => FileNotFoundError
  end.

(** The disk once the paths of [l] are unlinked, first to last. *)
Definition unlink_all (l : list string) (d : gmap string node) : gmap string node :=
  foldl (fun d p => delete p d) d l.

(** The entries of a list whose path is not in [gone]. *)
Definition survivors (gone : list string) (es : list DirEntry) : list DirEntry :=
  filter (fun e => path e ∉ gone) es.

(** The modification time the script sorts by, and the digest it groups by. *)
Definition mtime (entry : DirEntry) : Z :=
  stat_getitem (stat entry) FILE_MTIME_INDEX.

Definition size (entry : DirEntry) : Z :=
  stat_getitem (stat entry) FILE_SIZE_INDEX.

Definition digest (md5 : list byte -> string) (d : gmap string node)
    (entry : DirEntry) : string :=
  md5 (file_bytes d (path entry)).

(** The paths of the entries of [es] with digest [k], in the order of [es]. *)
Definition hash_group (md5 : list byte -> string) (d : gmap string node)
    (k : string) (es : list DirEntry) : list string :=
  map path (filter (fun e => digest md5 d e = k) es).

(** The list stored under a key of a [defaultdict]. *)
Fixpoint dict_get (d : defaultdict) (k : string) : list string :=
  match d with
  | [] => []
  | (k', vs) :: d' => if String.eqb k' k then vs else dict_get d' k
  end.

(** The dictionary the hashing loop builds from (digest, path) pairs. *)
Definition dict_of (kvs : list (string * string)) : defaultdict :=
  foldl (fun d kv => dict_append d kv.1 kv.2) [] kvs.

(** What the body of either deletion loop does with one path. *)
Definition delete_one (fuel : nat) (_prompt_flag : bool) (file_path : string)
  : M unit :=
  if _prompt_flag then
    res <- input (confirmation_prompt file_path) ;;
    res <- while_not_y_n fuel file_path res ;;
    if String.eqb res "y" then
      os_remove file_path ;;
      print (format SUCCESSFULLY_REMOVED_MSG file_path)
    else
      print (format CANCELLED_BY_USER_MSG file_path)
  else
    os_remove file_path ;;
    print (format SUCCESSFULLY_REMOVED_MSG file_path).

(** The prompt of a deletion with the loop that repeats it, and what
    either deletion loop does once the loop has its answer. *)
Definition ask (fuel : nat) (file_path : string) : M string :=
  res <- input (confirmation_prompt file_path) ;;
  while_not_y_n fuel file_path res.

Definition act_on (res file_path : string) : M unit :=
  if String.eqb res "y" then
    os_remove file_path ;;
    print (format SUCCESSFULLY_REMOVED_MSG file_path)
  else
    print (format CANCELLED_BY_USER_MSG file_path).

(** The world with more lines printed. *)
Definition with_output (w : world) (lines : list string) : world :=
  mk_world (disk w) (stdin w) (cursor w) (stdout w ++ lines).

(** The answers a line of the terminal can give to a confirmation. *)
Definition is_answer (res : string) : bool := bool_decide (res ∈ ["y"; "n"]).

(** No two entries of [es] with different bytes have the same digest. *)
Definition collision_free (md5 : list byte -> string) (d : gmap string node)
    (es : list DirEntry) : Prop :=
  forall e1 e2, e1 ∈ es -> e2 ∈ es ->
    digest md5 d e1 = digest md5 d e2 ->
    file_bytes d (path e1) = file_bytes d (path e2).

(** The size [stat()] reports for each entry is the number of bytes that
    reading it gives. *)
Definition sizes_agree (d : gmap string node) (es : list DirEntry) : Prop :=
  Forall (fun e => size e = Z.of_nat (length (file_bytes d (path e)))) es.

Definition all_readable (d : gmap string node) (es : list DirEntry) : Prop :=
  Forall (fun e => can_read d (path e) = true) es.

(** The body of the hashing loop of [get_duplicates]. *)
Definition hash_step (md5 : list byte -> string) (hash_dict : defaultdict)
    (entry : DirEntry) : M defaultdict :=
  h <- get_hash md5 (path entry) ;;
  ret (dict_append hash_dict h (path entry)).

(** The (digest, path) pairs the hashing loop goes through. *)
Definition digest_pairs (md5 : list byte -> string) (d : gmap string node)
    (es : list DirEntry) : list (string * string) :=
  map (fun e => (digest md5 d e, path e)) es.

(** What [get_duplicates] returns on a disk where it can read every entry. *)
Definition classification (md5 : list byte -> string) (d : gmap string node)
    (es : list DirEntry) : list string * list (list string) :=
  let sorted := list_sort mtime es in
  (map path (filter (fun entry => negb (valid_file entry)) sorted),
   filter (fun files => (1 <? length files)%nat)
     (dict_values (dict_of (digest_pairs md5 d sorted)))).

(** The world once the confirmation of [file_path] has been asked [n]
    times. *)
Definition prompted (w : world) (file_path : string) (n : nat) : world :=
  mk_world (disk w) (stdin w) (cursor w + n)%nat
    (stdout w ++ replicate n (confirmation_prompt file_path)).

(** The [k]-th line from the cursor on is the first that answers a
    confirmation. *)
Definition first_answer_at (w : world) (k : nat) : Prop :=
  is_answer (stdin w (cursor w + k)) = true /\
  forall j, (j < k)%nat -> is_answer (stdin w (cursor w + j)) = false.

(** The disk [d'] is the disk [d] without the regular files [gone]. *)
Definition shrunk (gone : list string) (d d' : gmap string node) : Prop :=
  (forall p, p ∈ gone -> d' !! p = None /\ is_regular d p = true) /\
  (forall p, p ∉ gone -> d' !! p = d !! p).

(** The body of the loop of [get_files] over the entries of a directory. *)
Definition collect (depth : nat) (directory : string) (_recursive : bool)
    (_file_entries : list DirEntry) (entry : DirEntry) : M (list DirEntry) :=
  if is_file entry then ret (_file_entries ++ [entry])
  else if andb (is_dir entry) _recursive then
    sub <- get_files depth directory (path entry) _recursive ;;
    ret (_file_entries ++ sub)
  else ret _file_entries.

(** A list is in key order when every element is followed by keys that
    are not smaller. *)
Definition key_sorted {A} (key : A -> Z) (l : list A) : Prop :=
  StronglySorted (fun a b => key a <= key b) l.

(** ** Worlds for the examples *)

(** A digest without collisions, for the examples: the bytes themselves. *)
Definition plain_digest (data : list byte) : string := string_of_list_byte data.

Definition file_stat (bytes mtime : Z) : stat_result :=
  mk_stat_result 33188 0 0 1 1000 1000 bytes mtime mtime mtime.

Definition dir_stat : stat_result :=
  mk_stat_result 16877 0 0 2 1000 1000 4096 0 0 0.

Definition text_file (text : string) (mtime : Z) (may_delete : bool) : node :=
  File (mk_regular (list_byte_of_string text)
          (file_stat (Z.of_nat (String.length text)) mtime) true may_delete).

Definition file_entry (p : string) (bytes mtime : Z) : DirEntry :=
  mk_DirEntry p true false (file_stat bytes mtime).

(** Two files with the same text, one with another text, one empty file. *)
Definition scenario_disk : gmap string node :=
  list_to_map
    [("d", Dir dir_stat ["c.txt"; "empty.bin"; "b.txt"; "a.txt"]);
     ("d/a.txt", text_file "hi" 1 true);
     ("d/b.txt", text_file "hi" 2 true);
     ("d/c.txt", text_file "bye" 3 true);
     ("d/empty.bin", text_file "" 4 true)].

Definition scenario_entries : list DirEntry :=
  [file_entry "d/c.txt" 3 3; file_entry "d/empty.bin" 0 4;
   file_entry "d/b.txt" 2 2; file_entry "d/a.txt" 2 1].

(** A terminal that answers [n] to everything. *)
Definition scenario_world : world :=
  mk_world scenario_disk (fun _ => "n") 0 [].

(** Two empty files next to a file with text. *)
Definition zeros_disk : gmap string node :=
  list_to_map
    [("d", Dir dir_stat ["new.bin"; "old.bin"; "c.txt"]);
     ("d/old.bin", text_file "" 1 true);
     ("d/new.bin", text_file "" 2 true);
     ("d/c.txt", text_file "bye" 3 true)].

Definition zeros_entries : list DirEntry :=
  [file_entry "d/new.bin" 0 2; file_entry "d/old.bin" 0 1;
   file_entry "d/c.txt" 3 3].

Definition zeros_world : world := mk_world zeros_disk (fun _ => "n") 0 [].

(** Three files with the same text, the second of which the process may
    not unlink. *)
Definition locked_disk : gmap string node :=
  list_to_map
    [("d", Dir dir_stat ["a.txt"; "b.txt"; "c.txt"]);
     ("d/a.txt", text_file "hi" 1 true);
     ("d/b.txt", text_file "hi" 2 false);
     ("d/c.txt", text_file "hi" 3 true)].

Definition locked_world : world := mk_world locked_disk (fun _ => "y") 0 [].

Definition locked_groups : list (list string) :=
  [["d/a.txt"; "d/b.txt"; "d/c.txt"]].

(** A terminal whose third line is the first to answer a confirmation. *)
Definition chatty_world : world :=
  mk_world scenario_disk (fun i => nth i ["maybe"; "Y"; "y"] "n") 0 [].

(** A directory without children. *)
Definition bare_world : world :=
  mk_world (list_to_map [("d", Dir dir_stat [])]) (fun _ => "n") 0 [].

(** ** Notions and worlds for the further properties *)


(** The lines from the cursor on are the answers [bs], one for each
    candidate: [y] for [true], [n] for [false]. *)
Definition answers_from (w : world) (bs : list bool) : Prop :=
  forall i b, bs !! i = Some b ->
    stdin w (cursor w + i) = if b : bool then "y" else "n".

(** The paths of [l] whose answer in [bs] is [true]. *)
Fixpoint accepted (l : list string) (bs : list bool) : list string :=
  match l, bs with
  | p :: l', b :: bs' => if b : bool then p :: accepted l' bs' else accepted l' bs'
  | _, _ => []
  end.

(** The disk [d'] is the disk [d] where regular files among [l] may have
    been removed and nothing else has changed. *)
Definition only_removed (l : list string) (d d' : gmap string node) : Prop :=
  forall q, d' !! q = d !! q \/
            (d' !! q = None /\ q ∈ l /\ is_regular d q = true).

(** Between [w] and [w'] lines have been printed and nothing else has
    happened. *)
Definition only_printed (w w' : world) : Prop :=
  disk w' = disk w /\ stdin w' = stdin w /\ cursor w' = cursor w /\
  exists lines, stdout w' = stdout w ++ lines.

(** Paths of [d'] are what they are in [d], regular files of [d] that
    are gone apart. *)
Definition lost_files_only (d d' : gmap string node) : Prop :=
  forall q, d' !! q = d !! q \/ (d' !! q = None /\ is_regular d q = true).

(** Every line the terminal has yet to give is [n]. *)
Definition refusing (w : world) : Prop :=
  forall i, (cursor w <= i)%nat -> stdin w i = "n".

(** Between [w] and [w'] the disk has not changed; lines may have been
    read and printed. *)
Definition undisturbed (w w' : world) : Prop :=
  disk w' = disk w /\ stdin w' = stdin w /\ (cursor w <= cursor w')%nat.

(** The lines printed so far are still there. *)
Definition output_extends (w w' : world) : Prop :=
  exists lines, stdout w' = stdout w ++ lines.

(** A directory with two files and a subdirectory that has one file. *)
Definition nested_disk : gmap string node :=
  list_to_map
    [("d", Dir dir_stat ["a.txt"; "sub"; "b.txt"]);
     ("d/a.txt", text_file "hi" 1 true);
     ("d/sub", Dir dir_stat ["e.txt"]);
     ("d/sub/e.txt", text_file "hi" 2 true);
     ("d/b.txt", text_file "bye" 3 true)].

Definition nested_world : world := mk_world nested_disk (fun _ => "n") 0 [].

(** What the recursive walk of that directory finds. *)
Definition nested_entries : list DirEntry :=
  [file_entry "d/a.txt" 2 1; file_entry "d/sub/e.txt" 2 2;
   file_entry "d/b.txt" 3 3].

(** Three files with the same text, and a terminal that refuses the
    first deletion and accepts the second. *)
Definition triple_disk : gmap string node :=
  list_to_map
    [("d", Dir dir_stat ["a.txt"; "b.txt"; "c.txt"]);
     ("d/a.txt", text_file "hi" 1 true);
     ("d/b.txt", text_file "hi" 2 true);
     ("d/c.txt", text_file "hi" 3 true)].

Definition triple_world : world :=
  mk_world triple_disk (fun i => nth i ["n"; "y"] "n") 0 [].


(** * Properties *)

(** ** The monad and its loops *)

Lemma world_eta w : mk_world (disk w) (stdin w) (cursor w) (stdout w) = w.
Proof. by destruct w. Qed.

Lemma with_output_nil w : with_output w [] = w.
Proof. destruct w; unfold with_output; simpl. by rewrite app_nil_r. Qed.

Lemma with_output_app w l1 l2 :
  with_output (with_output w l1) l2 = with_output w (l1 ++ l2).
Proof. unfold with_output; simpl. by rewrite app_assoc. Qed.

Lemma bind_ok {A B} (m : M A) (k : A -> M B) w a w' :
  m w = (Ok a, w') -> bind m k w = k a w'.
Proof. intros H. unfold bind. by rewrite H. Qed.

Lemma bind_raised {A B} (m : M A) (k : A -> M B) w e w' :
  m w = (Raised e, w') -> bind m k w = (Raised e, w').
Proof. intros H. unfold bind. by rewrite H. Qed.

Lemma bind_inv_ok {A B} (m : M A) (k : A -> M B) w b w2 :
  bind m k w = (Ok b, w2) ->
  exists a w1, m w = (Ok a, w1) /\ k a w1 = (Ok b, w2).
Proof.
  unfold bind. destruct (m w) as [[a|e|] w1]; intros H; try discriminate.
  by exists a, w1.
Qed.

Lemma for_each_app {A} (l1 l2 : list A) (body : A -> M unit) w :
  for_each (l1 ++ l2) body w = bind (for_each l1 body) (fun _ => for_each l2 body) w.
Proof.
  revert w. induction l1 as [|x l1 IH]; intros w; [reflexivity|].
  simpl. unfold bind. destruct (body x w) as [[[]|e|] w1]; [|done|done].
  rewrite IH. reflexivity.
Qed.

Lemma for_each_concat {A} (ls : list (list A)) (body : A -> M unit) w :
  for_each ls (fun l => for_each l body) w = for_each (concat ls) body w.
Proof.
  revert w. induction ls as [|l ls IH]; intros w; [reflexivity|].
  simpl. rewrite for_each_app. unfold bind.
  destruct (for_each l body w) as [[[]|e|] w1]; [|done|done]. apply IH.
Qed.

(** Both deletion loops run [delete_one] over their candidates: the
    members of each group after the first, and every invalid path. *)
Lemma remove_duplicates_files_unfold fuel groups flag w :
  remove_duplicates_files fuel groups flag w =
  for_each (concat (map tail groups)) (delete_one fuel flag) w.
Proof.
  unfold remove_duplicates_files, progressBar. rewrite <- for_each_concat.
  revert w. induction groups as [|g gs IH]; intros w; [reflexivity|].
  simpl. unfold bind. fold (delete_one fuel flag).
  destruct (for_each (tail g) _ w) as [[[]|e|] w1]; [|done|done]. apply IH.
Qed.

Lemma remove_invalid_files_unfold fuel l flag w :
  remove_invalid_files fuel l flag w = for_each l (delete_one fuel flag) w.
Proof. reflexivity. Qed.

(** ** Sorting *)

Section Sorting.
Context {A : Type} (key : A -> Z).

Lemma sort_insert_perm x l : sort_insert key x l ≡ₚ x :: l.
Proof.
  induction l as [|y l IH]; simpl; [done|].
  destruct (key x <=? key y); [done|]. rewrite IH. apply Permutation_swap.
Qed.

Lemma list_sort_perm l : list_sort key l ≡ₚ l.
Proof.
  induction l as [|x l IH]; simpl; [done|].
  by rewrite sort_insert_perm, IH.
Qed.

Lemma elem_of_list_sort x l : x ∈ list_sort key l <-> x ∈ l.
Proof. by rewrite list_sort_perm. Qed.

Lemma sort_insert_sorted x l : key_sorted key l -> key_sorted key (sort_insert key x l).
Proof.
  unfold key_sorted. induction 1 as [|y l Hs IH Hy]; simpl.
  - repeat constructor.
  - destruct (Z.leb_spec (key x) (key y)).
    + constructor; [by constructor|]. constructor; [done|].
      eapply Forall_impl; [exact Hy|]. simpl. intros; lia.
    + constructor; [done|]. rewrite sort_insert_perm. constructor; [lia|done].
Qed.

Lemma list_sort_sorted l : key_sorted key (list_sort key l).
Proof.
  induction l; simpl; [constructor|]. by apply sort_insert_sorted.
Qed.

Lemma sort_insert_front x l :
  Forall (fun y => key x <= key y) l -> sort_insert key x l = x :: l.
Proof.
  destruct 1 as [|y l Hy _]; simpl; [done|].
  destruct (Z.leb_spec (key x) (key y)); [done|lia].
Qed.

Lemma Forall_filter_keep (P Q : A -> Prop) `{!forall a, Decision (P a)} l :
  Forall Q l -> Forall Q (filter P l).
Proof.
  rewrite !Forall_forall. intros Hall x Hx.
  apply list_elem_of_filter in Hx as [_ Hx]. by apply Hall.
Qed.

Lemma key_sorted_filter (P : A -> Prop) `{!forall a, Decision (P a)} l :
  key_sorted key l -> key_sorted key (filter P l).
Proof.
  unfold key_sorted. induction 1 as [|y l Hs IH Hy]; [constructor|].
  rewrite filter_cons. case_decide; [|done].
  constructor; [done|]. by apply Forall_filter_keep.
Qed.

Lemma sort_insert_filter (P : A -> Prop) `{!forall a, Decision (P a)} x l :
  key_sorted key l ->
  filter P (sort_insert key x l) =
  if decide (P x) then sort_insert key x (filter P l) else filter P l.
Proof.
  unfold key_sorted. induction 1 as [|y l Hs IH Hy]; simpl.
  - rewrite filter_cons, filter_nil. by case_decide.
  - destruct (Z.leb_spec (key x) (key y)) as [Hxy|Hxy].
    + rewrite filter_cons. case_decide; [|done].
      rewrite sort_insert_front; [done|].
      apply Forall_filter_keep. constructor; [done|].
      eapply Forall_impl; [exact Hy|]. simpl. intros; lia.
    + rewrite !filter_cons, IH. destruct (decide (P y)), (decide (P x)); try done.
      simpl. destruct (Z.leb_spec (key x) (key y)); [lia|done].
Qed.

(** Sorting commutes with filtering. *)
Lemma list_sort_filter (P : A -> Prop) `{!forall a, Decision (P a)} l :
  filter P (list_sort key l) = list_sort key (filter P l).
Proof.
  induction l as [|x l IH]; simpl; [done|].
  rewrite sort_insert_filter by apply list_sort_sorted.
  rewrite filter_cons. case_decide; simpl; by rewrite IH.
Qed.

Lemma list_sort_id l : key_sorted key l -> list_sort key l = l.
Proof.
  unfold key_sorted. induction 1 as [|y l Hs IH Hy]; simpl; [done|].
  rewrite IH. by apply sort_insert_front.
Qed.

(** The sort is stable: elements with the same key keep their order. *)
Lemma list_sort_stable k l :
  filter (fun a => key a = k) (list_sort key l) = filter (fun a => key a = k) l.
Proof.
  rewrite list_sort_filter. apply list_sort_id.
  unfold key_sorted. induction l as [|x l IH]; [rewrite filter_nil; constructor|].
  rewrite filter_cons. case_decide as Hx; [|done].
  constructor; [done|]. apply Forall_forall. intros y Hy.
  apply list_elem_of_filter in Hy as [Hy _]. lia.
Qed.

(** The first element of a sorted list has the least key. *)
Lemma key_sorted_head x l y : key_sorted key (x :: l) -> y ∈ x :: l -> key x <= key y.
Proof.
  intros Hs Hy. apply StronglySorted_inv in Hs as [_ Hall].
  apply elem_of_cons in Hy as [->|Hy]; [lia|].
  by eapply Forall_forall in Hall.
Qed.

End Sorting.

(** ** The dictionary of digests *)

Lemma dict_keys_append d k v :
  (dict_append d k v).*1 = if decide (k ∈ d.*1) then d.*1 else d.*1 ++ [k].
Proof.
  induction d as [|[k' vs] d IH].
  - destruct (decide _) as [Hin|_]; [by apply elem_of_nil in Hin|reflexivity].
  - cbn [dict_append]. destruct (String.eqb_spec k' k) as [->|Hne].
    + destruct (decide (k ∈ ((k, vs) :: d).*1)) as [_|Hn]; [reflexivity|].
      exfalso. apply Hn. by left.
    + rewrite !fmap_cons, IH. cbn [fst].
      destruct (decide (k ∈ d.*1)) as [Hin|Hin],
               (decide (k ∈ k' :: d.*1)) as [Hin'|Hin']; try done.
      * exfalso. apply Hin'. by right.
      * apply elem_of_cons in Hin' as [?|?]; congruence.
Qed.

Lemma dict_get_append d k v k' :
  dict_get (dict_append d k v) k' =
  if decide (k = k') then dict_get d k ++ [v] else dict_get d k'.
Proof.
  induction d as [|[k0 vs] d IH]; simpl.
  - destruct (String.eqb_spec k k'), (decide (k = k')); done.
  - destruct (String.eqb_spec k0 k) as [->|Hne]; simpl.
    + destruct (String.eqb_spec k k'), (decide (k = k')); done.
    + rewrite IH. destruct (String.eqb_spec k0 k') as [->|Hne'].
      * by rewrite decide_False by done.
      * done.
Qed.

Lemma dict_get_elem d k : k ∈ d.*1 -> (k, dict_get d k) ∈ d.
Proof.
  induction d as [|[k' vs] d IH]; simpl; intros Hin.
  - by apply elem_of_nil in Hin.
  - destruct (String.eqb_spec k' k) as [->|Hne]; [by left|].
    right. apply IH. apply elem_of_cons in Hin as [?|?]; [congruence|done].
Qed.

Lemma dict_elem_get d k vs : NoDup d.*1 -> (k, vs) ∈ d -> vs = dict_get d k.
Proof.
  induction d as [|[k' vs'] d IH]; simpl; intros Hnd Hin.
  - by apply elem_of_nil in Hin.
  - apply NoDup_cons in Hnd as [Hk' Hnd].
    apply elem_of_cons in Hin as [Heq|Hin].
    + injection Heq as -> ->. by rewrite String.eqb_refl.
    + destruct (String.eqb_spec k' k) as [->|Hne]; [|by apply IH].
      exfalso. apply Hk'. apply list_elem_of_fmap. by exists (k, vs).
Qed.

Lemma dict_of_snoc kvs kv :
  dict_of (kvs ++ [kv]) = dict_append (dict_of kvs) kv.1 kv.2.
Proof. unfold dict_of. by rewrite foldl_app. Qed.

Lemma dict_of_keys kvs :
  NoDup (dict_of kvs).*1 /\ forall k, k ∈ (dict_of kvs).*1 <-> k ∈ kvs.*1.
Proof.
  induction kvs as [|kv kvs [IHnd IHin]] using rev_ind.
  - split; [constructor|done].
  - rewrite dict_of_snoc, dict_keys_append, fmap_app. simpl.
    destruct (decide (kv.1 ∈ (dict_of kvs).*1)) as [Hin|Hin]; split.
    + done.
    + intros k. rewrite elem_of_app, <- IHin, list_elem_of_singleton.
      split; [by left|]. intros [Hk| ->]; done.
    + apply NoDup_app. split_and!; [done| |apply NoDup_singleton].
      intros k Hk ->%list_elem_of_singleton. done.
    + intros k. by rewrite !elem_of_app, IHin.
Qed.

Lemma dict_of_get kvs k :
  dict_get (dict_of kvs) k = (filter (fun kv => kv.1 = k) kvs).*2.
Proof.
  induction kvs as [|kv kvs IH] using rev_ind; [done|].
  rewrite dict_of_snoc, dict_get_append, filter_app, fmap_app.
  rewrite filter_cons, filter_nil.
  destruct (decide (kv.1 = k)) as [<-|Hne]; rewrite IH; [reflexivity|].
  symmetry. apply app_nil_r.
Qed.

(** The values of the dictionary are the classes of the pairs by key. *)
Lemma dict_of_values kvs vs :
  vs ∈ dict_values (dict_of kvs) <->
  exists k, k ∈ kvs.*1 /\ vs = (filter (fun kv => kv.1 = k) kvs).*2.
Proof.
  destruct (dict_of_keys kvs) as [Hnd Hin]. unfold dict_values. split.
  - intros ([k vs'] & -> & Hel)%list_elem_of_fmap. exists k. split.
    + apply Hin. apply list_elem_of_fmap. by exists (k, vs').
    + simpl. rewrite <- dict_of_get. by apply dict_elem_get.
  - intros (k & Hk & ->). apply list_elem_of_fmap.
    exists (k, dict_get (dict_of kvs) k). split; [by rewrite dict_of_get|].
    apply dict_get_elem. by apply Hin.
Qed.

(** ** The classifier *)

Section Classifier.
Variable md5 : list byte -> string.

Lemma read_bytes_world p w o w' : read_bytes p w = (o, w') -> w' = w.
Proof.
  unfold read_bytes. destruct (disk w !! p) as [[f|st names]|];
    [destruct (readable f)|..]; by intros [= _ <-].
Qed.

Lemma get_hash_ok p w :
  can_read (disk w) p = true ->
  get_hash md5 p w = (Ok (md5 (file_bytes (disk w) p)), w).
Proof.
  unfold get_hash, bind, read_bytes, can_read, file_bytes.
  destruct (disk w !! p) as [[f|st names]|]; try discriminate.
  by intros ->.
Qed.

Lemma get_hash_inv p w h w' :
  get_hash md5 p w = (Ok h, w') ->
  w' = w /\ can_read (disk w) p = true /\ h = md5 (file_bytes (disk w) p).
Proof.
  unfold get_hash, bind, read_bytes, can_read, file_bytes, ret.
  destruct (disk w !! p) as [[f|st names]|]; try discriminate.
  destruct (readable f); [|discriminate]. by intros [= <- <-].
Qed.

Lemma hash_loop_ok es d w :
  Forall (fun e => can_read (disk w) (path e) = true) es ->
  for_fold es (hash_step md5) d w =
  (Ok (foldl (fun d kv => dict_append d kv.1 kv.2) d (digest_pairs md5 (disk w) es)), w).
Proof.
  intros Hall. revert d. induction Hall as [|e es He _ IH]; intros d; [reflexivity|].
  simpl. unfold bind at 1, hash_step at 1, bind at 1.
  rewrite (get_hash_ok _ _ He). apply IH.
Qed.

Lemma hash_loop_inv es d w d' w' :
  for_fold es (hash_step md5) d w = (Ok d', w') ->
  w' = w /\ Forall (fun e => can_read (disk w) (path e) = true) es.
Proof.
  revert d. induction es as [|e es IH]; intros d; simpl.
  - by intros [= _ <-].
  - intros (d1 & w1 & Hstep & Hrest)%bind_inv_ok.
    apply bind_inv_ok in Hstep as (h & w2 & Hh & Hret).
    apply get_hash_inv in Hh as (-> & Hread & _). injection Hret as _ <-.
    apply IH in Hrest as [-> Hall]. split; [done|by constructor].
Qed.

Lemma get_duplicates_unfold es w :
  get_duplicates md5 es w =
  bind (for_fold (list_sort mtime es) (hash_step md5) [])
    (fun hash_dict =>
       ret (map path (filter (fun entry => negb (valid_file entry)) (list_sort mtime es)),
            filter (fun files => (1 <? length files)%nat) (dict_values hash_dict))) w.
Proof. reflexivity. Qed.

(** On a disk where every entry can be read, the classifier returns the
    classification and leaves the world as it is. *)
Lemma get_duplicates_ok es w :
  Forall (fun e => can_read (disk w) (path e) = true) es ->
  get_duplicates md5 es w = (Ok (classification md5 (disk w) es), w).
Proof.
  intros Hall. rewrite get_duplicates_unfold. unfold bind.
  rewrite hash_loop_ok; [reflexivity|].
  apply Forall_forall. intros e He. apply elem_of_list_sort in He.
  by eapply Forall_forall in Hall.
Qed.

Lemma get_duplicates_inv es w r w' :
  get_duplicates md5 es w = (Ok r, w') ->
  w' = w /\ Forall (fun e => can_read (disk w) (path e) = true) es /\
  r = classification md5 (disk w) es.
Proof.
  intros H. assert (Hall : Forall (fun e => can_read (disk w) (path e) = true) es).
  { rewrite get_duplicates_unfold in H.
    apply bind_inv_ok in H as (d & w1 & Hloop & _).
    apply hash_loop_inv in Hloop as [_ Hall].
    apply Forall_forall. intros e He. apply (elem_of_list_sort mtime) in He.
    by eapply Forall_forall in Hall. }
  rewrite get_duplicates_ok in H by done. by injection H as <- <-.
Qed.

Lemma digest_pairs_class d k es :
  (filter (fun kv => kv.1 = k) (digest_pairs md5 d es)).*2 = hash_group md5 d k es.
Proof.
  unfold hash_group, digest_pairs. induction es as [|e es IH]; [done|].
  cbn [map]. rewrite !filter_cons. cbn [fst].
  destruct (decide (digest md5 d e = k)); [|done]. cbn. by f_equal.
Qed.

(** The duplicate groups are the digest classes, in sorted order, that
    have at least two members. *)
Lemma classification_groups d es g :
  g ∈ (classification md5 d es).2 <->
  exists k, g = hash_group md5 d k (list_sort mtime es) /\ (2 <= length g)%nat.
Proof.
  unfold classification. cbn [snd]. rewrite list_elem_of_filter, dict_of_values.
  rewrite Is_true_true, Nat.ltb_lt. split.
  - intros (Hlen & k & _ & ->). exists k. by rewrite <- digest_pairs_class.
  - intros (k & -> & Hlen). split; [lia|]. exists k.
    split; [|by rewrite digest_pairs_class].
    rewrite <- digest_pairs_class in Hlen.
    destruct (filter _ _) as [|kv l] eqn:Hf; [simpl in Hlen; lia|].
    assert (Hkv : kv ∈ filter (fun kv => kv.1 = k) (digest_pairs md5 d (list_sort mtime es)))
      by (rewrite Hf; left).
    apply list_elem_of_filter in Hkv as [<- Hkv]. apply list_elem_of_fmap. by exists kv.
Qed.

Lemma classification_invalid d es p :
  p ∈ (classification md5 d es).1 <->
  exists e, e ∈ es /\ path e = p /\ valid_file e = false.
Proof.
  unfold classification. cbn [fst]. rewrite list_elem_of_fmap. split.
  - intros (e & -> & He). apply list_elem_of_filter in He as [Hv He].
    apply elem_of_list_sort in He. exists e. split_and!; [done..|].
    by destruct (valid_file e).
  - intros (e & He & <- & Hv). exists e. split; [done|].
    apply list_elem_of_filter. rewrite Hv. split; [done|]. by apply elem_of_list_sort.
Qed.

End Classifier.

Lemma two_members_length {A} (x y : A) (l : list A) :
  x ∈ l -> y ∈ l -> x <> y -> (2 <= length l)%nat.
Proof.
  destruct l as [|a [|b l]]; simpl; intros Hx Hy Hne; [|exfalso|lia].
  - by apply elem_of_nil in Hx.
  - apply list_elem_of_singleton in Hx, Hy. congruence.
Qed.

Lemma elem_of_hash_group md5 d k es p :
  p ∈ hash_group md5 d k es <->
  md5 (file_bytes d p) = k /\ exists e, e ∈ es /\ path e = p.
Proof.
  unfold hash_group. rewrite list_elem_of_fmap. split.
  - intros (e & -> & He). apply list_elem_of_filter in He as [Hk He].
    split; [done|by exists e].
  - intros (Hk & e & He & <-). exists e. split; [done|].
    by apply list_elem_of_filter.
Qed.


Lemma filter_ext_elem {A} (P Q : A -> Prop)
    `{!forall a, Decision (P a)} `{!forall a, Decision (Q a)} (l : list A) :
  (forall x, x ∈ l -> (P x <-> Q x)) -> filter P l = filter Q l.
Proof.
  induction l as [|x l IH]; intros Hext; [done|].
  rewrite !filter_cons, IH by (intros y Hy; apply Hext; by right).
  destruct (decide (P x)) as [HP|HP], (decide (Q x)) as [HQ|HQ]; try done;
    exfalso; apply (Hext x) in HP || apply (Hext x) in HQ; try done; by left.
Qed.

Lemma size_zero_invalid e : size e = 0 -> valid_file e = false.
Proof. unfold valid_file, size. intros ->. reflexivity. Qed.

(** C8.  On a disk where every entry can be read, the classifier returns
    and every entry of size zero has its path in the invalid list.  If
    moreover the sizes are those of the bytes read and digests do not
    collide, then as soon as two entries of distinct paths have size zero,
    the paths of the entries of size zero, in sorted order, are one of the
    duplicate groups, and a path after the first one in that group is both
    a deletion candidate and invalid. *)
Theorem zero_size_entries_invalid_and_grouped md5 w es :
  all_readable (disk w) es ->
  exists invalid groups,
    get_duplicates md5 es w = (Ok (invalid, groups), w) /\
    (forall e, e ∈ es -> size e = 0 -> path e ∈ invalid) /\
    (sizes_agree (disk w) es -> collision_free md5 (disk w) es ->
     forall e1 e2, e1 ∈ es -> e2 ∈ es -> size e1 = 0 -> size e2 = 0 ->
       path e1 <> path e2 ->
       let g := map path (filter (fun e => size e = 0) (list_sort mtime es)) in
       g ∈ groups /\ path e1 ∈ g /\ path e2 ∈ g /\
       exists p, p ∈ tail g /\ p ∈ invalid).
Proof.
  intros Hread.
  exists (classification md5 (disk w) es).1, (classification md5 (disk w) es).2.
  split; [rewrite get_duplicates_ok by done; by destruct (classification _ _ _)|].
  assert (Hinv : forall e, e ∈ es -> size e = 0 ->
                   path e ∈ (classification md5 (disk w) es).1).
  { intros e He Hz. apply classification_invalid. exists e.
    split_and!; [done..|]. by apply size_zero_invalid. }
  split; [done|]. intros Hsizes Hfree e1 e2 He1 He2 Hz1 Hz2 Hne g.
  assert (Hempty : forall e, e ∈ es -> (size e = 0 <-> file_bytes (disk w) (path e) = [])).
  { intros e He. eapply Forall_forall in Hsizes; [|exact He]. simpl in Hsizes.
    rewrite Hsizes. destruct (file_bytes _ _); simpl; split; (done || lia). }
  assert (Hg : g = hash_group md5 (disk w) (md5 []) (list_sort mtime es)).
  { unfold g, hash_group. f_equal. apply filter_ext_elem.
    intros e He%elem_of_list_sort. rewrite (Hempty e He). unfold digest. split.
    - by intros ->.
    - intros Hd. apply Hempty in Hz1; [|done]. rewrite <- Hz1 in Hd |- *.
      by apply Hfree. }
  assert (Hmem : forall e, e ∈ es -> size e = 0 -> path e ∈ g).
  { intros e He Hz. unfold g. apply list_elem_of_fmap. exists e. split; [done|].
    apply list_elem_of_filter. split; [done|]. by apply elem_of_list_sort. }
  assert (Hlen : (2 <= length g)%nat).
  { apply (two_members_length (path e1) (path e2)); auto. }
  split_and!; [|by apply Hmem..|].
  - apply classification_groups. exists (md5 []). split; [done|lia].
  - destruct g as [|p0 [|p1 g']] eqn:Eg; simpl in Hlen; [lia..|].
    exists p1. split; [by left|].
    assert (Hp1 : p1 ∈ g) by (rewrite Eg; right; left).
    unfold g in Hp1. apply list_elem_of_fmap in Hp1 as (e & -> & He).
    apply list_elem_of_filter in He as [Hz He]. apply elem_of_list_sort in He.
    by apply Hinv.
Qed.

Lemma dict_append_concat d k v :
  concat (dict_values (dict_append d k v)) ≡ₚ concat (dict_values d) ++ [v].
Proof.
  unfold dict_values. induction d as [|[k' vs] d IH]; [done|].
  cbn [dict_append]. destruct (String.eqb k' k); simpl.
  - rewrite <- !app_assoc. f_equiv. apply Permutation_app_comm.
  - rewrite IH. by rewrite app_assoc.
Qed.

Lemma dict_of_concat kvs : concat (dict_values (dict_of kvs)) ≡ₚ kvs.*2.
Proof.
  induction kvs as [|kv kvs IH] using rev_ind; [done|].
  by rewrite dict_of_snoc, dict_append_concat, IH, fmap_app.
Qed.

Lemma concat_filter_sublist {A} (P : list A -> Prop) `{!forall l, Decision (P l)}
    (ls : list (list A)) :
  concat (filter P ls) `sublist_of` concat ls.
Proof.
  induction ls as [|l ls IH]; [constructor|].
  rewrite filter_cons. destruct (decide (P l)); simpl.
  - by apply sublist_app.
  - by apply sublist_inserts_l.
Qed.

(** The groups the classifier returns are what the duplicate executor
    expects: when the entries have distinct paths, no path is in two
    places of the groups, and each member is the path of an entry. *)
Lemma classification_groups_distinct md5 d es :
  NoDup (map path es) ->
  NoDup (concat (classification md5 d es).2) /\
  forall p, p ∈ concat (classification md5 d es).2 -> p ∈ map path es.
Proof.
  intros Hnd. unfold classification. cbn [snd].
  assert (Hperm : concat (dict_values (dict_of (digest_pairs md5 d (list_sort mtime es))))
                  ≡ₚ map path es).
  { rewrite dict_of_concat. unfold digest_pairs.
    rewrite <- list_fmap_compose. change (map path es) with (path <$> es).
    apply fmap_Permutation, list_sort_perm. }
  split.
  - eapply sublist_NoDup; [|apply concat_filter_sublist]. by rewrite Hperm.
  - intros p Hp. rewrite <- Hperm.
    revert p Hp. apply sublist_subseteq, concat_filter_sublist.
Qed.

(** ** Deleting without confirmation *)

Lemma unlink_all_lookup l d q :
  unlink_all l d !! q = if decide (q ∈ l) then None else d !! q.
Proof.
  unfold unlink_all. revert d. induction l as [|p l IH]; intros d; simpl.
  - destruct (decide (q ∈ [])) as [Hin|_]; [by apply elem_of_nil in Hin|done].
  - rewrite IH. destruct (decide (q ∈ l)) as [Hin|Hin].
    + rewrite decide_True; [done|by right].
    + destruct (decide (q = p)) as [->|Hne].
      * rewrite lookup_delete_eq. rewrite decide_True; [done|by left].
      * rewrite lookup_delete_ne by done. rewrite decide_False; [done|].
        intros [?|?]%elem_of_cons; done.
Qed.

Lemma unlink_all_snoc l p d : unlink_all (l ++ [p]) d = delete p (unlink_all l d).
Proof. unfold unlink_all. by rewrite foldl_app. Qed.

Lemma can_remove_delete d p q : p <> q -> can_remove (delete p d) q = can_remove d q.
Proof. intros Hne. unfold can_remove. by rewrite lookup_delete_ne. Qed.

Lemma can_remove_regular d p : can_remove d p = true -> is_regular d p = true.
Proof. unfold can_remove, is_regular. by destruct (d !! p) as [[]|]. Qed.

Lemma for_each_cons {A} (x : A) l (body : A -> M unit) w :
  for_each (x :: l) body w = bind (body x) (fun _ => for_each l body) w.
Proof. reflexivity. Qed.

Lemma delete_one_unprompted fuel p w :
  delete_one fuel false p w =
  if can_remove (disk w) p
  then (Ok tt, mk_world (delete p (disk w)) (stdin w) (cursor w)
                 (stdout w ++ [format SUCCESSFULLY_REMOVED_MSG p]))
  else (Raised (remove_error (disk w) p), w).
Proof.
  unfold delete_one, bind, os_remove, can_remove, remove_error.
  destruct (disk w !! p) as [[f|st names]|]; [|done..].
  by destruct (deletable f).
Qed.

(** Distinct removable paths are all removed, each with its report. *)
Lemma unprompted_loop_ok fuel l w :
  NoDup l ->
  Forall (fun p => can_remove (disk w) p = true) l ->
  for_each l (delete_one fuel false) w =
  (Ok tt, mk_world (unlink_all l (disk w)) (stdin w) (cursor w)
            (stdout w ++ map (format SUCCESSFULLY_REMOVED_MSG) l)).
Proof.
  intros Hnd. revert w. induction Hnd as [|p l Hp Hnd IH]; intros w Hall.
  - simpl. unfold ret. by rewrite app_nil_r, world_eta.
  - apply Forall_cons in Hall as [Hp1 Hall].
    rewrite for_each_cons. unfold bind. rewrite delete_one_unprompted, Hp1. rewrite IH.
    + simpl. by rewrite <- app_assoc.
    + simpl. apply Forall_forall. intros q Hq.
      rewrite can_remove_delete by (intros ->; done).
      by eapply Forall_forall in Hall.
Qed.

(** A loop that ends normally has removed distinct paths that were
    removable regular files. *)
Lemma unprompted_loop_inv fuel l w w' :
  for_each l (delete_one fuel false) w = (Ok tt, w') ->
  NoDup l /\ Forall (fun p => can_remove (disk w) p = true) l.
Proof.
  revert w. induction l as [|p l IH]; intros w.
  - intros _. split; constructor.
  - rewrite for_each_cons. unfold bind. rewrite delete_one_unprompted.
    destruct (can_remove (disk w) p) eqn:Hp; [|discriminate].
    intros [Hnd Hall]%IH. simpl in Hall.
    assert (Hnot : p ∉ l).
    { intros Hin. eapply Forall_forall in Hall; [|exact Hin].
      unfold can_remove in Hall. by rewrite lookup_delete_eq in Hall. }
    split; [by constructor|]. constructor; [done|].
    apply Forall_forall. intros q Hq.
    rewrite <- (can_remove_delete _ p) by (intros ->; done).
    by eapply Forall_forall in Hall.
Qed.

(** The first path that cannot be removed ends the loop with its
    exception: what comes before it is removed and reported, what comes
    after it is not looked at. *)
Lemma unprompted_loop_abort fuel pre p post w :
  NoDup pre ->
  Forall (fun q => can_remove (disk w) q = true) pre ->
  can_remove (unlink_all pre (disk w)) p = false ->
  for_each (pre ++ p :: post) (delete_one fuel false) w =
  (Raised (remove_error (unlink_all pre (disk w)) p),
   mk_world (unlink_all pre (disk w)) (stdin w) (cursor w)
     (stdout w ++ map (format SUCCESSFULLY_REMOVED_MSG) pre)).
Proof.
  intros Hnd Hall Hp. rewrite for_each_app. unfold bind at 1.
  rewrite unprompted_loop_ok by done. rewrite for_each_cons. unfold bind.
  rewrite delete_one_unprompted. simpl. by rewrite Hp.
Qed.

Lemma tails_sublist (groups : list (list string)) :
  concat (map tail groups) `sublist_of` concat groups.
Proof.
  induction groups as [|g gs IH]; simpl; [constructor|].
  apply sublist_app; [|done]. destruct g; simpl; [constructor|].
  by apply sublist_cons.
Qed.

Lemma elem_of_concat {A} (x : A) (ls : list (list A)) :
  x ∈ concat ls <-> exists l, l ∈ ls /\ x ∈ l.
Proof.
  induction ls as [|l ls IH]; simpl.
  - split; [by intros ?%elem_of_nil|by intros (l & ?%elem_of_nil & _)].
  - rewrite elem_of_app, IH. split.
    + intros [Hx|(l' & Hl' & Hx)]; [exists l; split; [by left|done]|].
      exists l'. split; [by right|done].
    + intros (l' & [->|Hl']%elem_of_cons & Hx); [by left|right; by exists l'].
Qed.

Lemma head_not_in_tails (groups : list (list string)) p0 rest :
  NoDup (concat groups) -> p0 :: rest ∈ groups ->
  p0 ∉ concat (map tail groups).
Proof.
  induction groups as [|g gs IH]; simpl; intros Hnd Hg.
  - by apply elem_of_nil in Hg.
  - apply NoDup_app in Hnd as (Hg1 & Hdisj & Hgs).
    intros [Hin|Hin]%elem_of_app.
    + apply elem_of_cons in Hg as [<-|Hg].
      * simpl in Hin. by apply NoDup_cons in Hg1 as [? _].
      * apply (Hdisj p0).
        -- destruct g; simpl in Hin; [by apply elem_of_nil in Hin|by right].
        -- apply elem_of_concat. exists (p0 :: rest). split; [done|by left].
    + apply elem_of_cons in Hg as [<-|Hg].
      * apply (Hdisj p0); [by left|].
        by apply (sublist_subseteq _ _ (tails_sublist gs)).
      * by apply IH.
Qed.

(** C2.  Let the members of the groups be distinct paths that are on the
    disk, those after the first of each group being removable.  The
    duplicate executor run without confirmation returns, leaves every path
    that is not a later member of a group as it was, and for each group of
    N >= 2 members removes the N-1 members after the first while the first
    one stays on the disk. *)
Theorem remove_duplicates_files_keeps_first fuel groups w :
  NoDup (concat groups) ->
  Forall (fun p => is_Some (disk w !! p)) (concat groups) ->
  Forall (fun p => can_remove (disk w) p = true) (concat (map tail groups)) ->
  exists w',
    remove_duplicates_files fuel groups false w = (Ok tt, w') /\
    (forall q, q ∉ concat (map tail groups) -> disk w' !! q = disk w !! q) /\
    forall g, g ∈ groups -> (2 <= length g)%nat ->
      exists p0 rest,
        g = p0 :: rest /\ length rest = (length g - 1)%nat /\ NoDup rest /\
        is_Some (disk w' !! p0) /\
        forall p, p ∈ rest -> is_Some (disk w !! p) /\ disk w' !! p = None.
Proof.
  intros Hnd Hdisk Hrem.
  pose proof (sublist_NoDup _ _ Hnd (tails_sublist groups)) as Hnd'.
  eexists. split; [|split].
  - rewrite remove_duplicates_files_unfold. by apply unprompted_loop_ok.
  - intros q Hq. simpl. rewrite unlink_all_lookup. by rewrite decide_False.
  - intros g Hg Hlen. destruct g as [|p0 rest]; [simpl in Hlen; lia|].
    exists p0, rest. simpl. split_and!; [done|lia| | |].
    + assert (Hsub : NoDup (p0 :: rest)).
      { clear -Hnd Hg. induction groups as [|g gs IH]; [by apply elem_of_nil in Hg|].
        simpl in Hnd. apply NoDup_app in Hnd as (Hg1 & _ & Hgs).
        apply elem_of_cons in Hg as [<-|Hg]; [done|by apply IH]. }
      by apply NoDup_cons in Hsub as [_ ?].
    + rewrite unlink_all_lookup, decide_False by by eapply head_not_in_tails.
      eapply Forall_forall in Hdisk; [exact Hdisk|].
      apply elem_of_concat. exists (p0 :: rest). split; [done|by left].
    + intros p Hp. split.
      * eapply Forall_forall in Hdisk; [exact Hdisk|].
        apply elem_of_concat. exists (p0 :: rest). split; [done|by right].
      * rewrite unlink_all_lookup, decide_True; [done|].
        apply elem_of_concat. exists rest. split; [|done].
        apply list_elem_of_fmap. by exists (p0 :: rest).
Qed.

(** C10.  Distinct removable paths given to the invalid-file executor run
    without confirmation are all removed, the first one included, and
    every other path is left as it was. *)
Theorem remove_invalid_files_removes_all fuel p0 rest w :
  NoDup (p0 :: rest) ->
  Forall (fun p => can_remove (disk w) p = true) (p0 :: rest) ->
  exists w',
    remove_invalid_files fuel (p0 :: rest) false w = (Ok tt, w') /\
    disk w' !! p0 = None /\
    (forall p, p ∈ rest -> disk w' !! p = None) /\
    (forall q, q ∉ p0 :: rest -> disk w' !! q = disk w !! q) /\
    stdout w' = stdout w ++ map (format SUCCESSFULLY_REMOVED_MSG) (p0 :: rest).
Proof.
  intros Hnd Hrem. eexists. split.
  - rewrite remove_invalid_files_unfold. by apply unprompted_loop_ok.
  - cbn [disk stdout]. split_and!; [| | |done].
    + rewrite unlink_all_lookup, decide_True; [done|by left].
    + intros p Hp. rewrite unlink_all_lookup, decide_True; [done|by right].
    + intros q Hq. by rewrite unlink_all_lookup, decide_False.
Qed.

(** ** Deleting with confirmation *)

Lemma delete_one_prompted fuel p w :
  delete_one fuel true p w = bind (ask fuel p) (fun res => act_on res p) w.
Proof. unfold delete_one, ask, act_on, bind. by destruct (input _ w) as [[?|?|] ?]. Qed.

Lemma is_answer_spec res : is_answer res = true <-> res = "y" \/ res = "n".
Proof.
  unfold is_answer. rewrite bool_decide_eq_true, !elem_of_cons.
  split; [intros [?|[?|[]%elem_of_nil]]|intros [?|?]]; tauto.
Qed.

Lemma while_not_y_n_answer fuel p res w :
  is_answer res = true -> while_not_y_n fuel p res w = (Ok res, w).
Proof.
  unfold is_answer. intros H%bool_decide_eq_true.
  destruct fuel; simpl; by rewrite bool_decide_eq_false_2 by tauto.
Qed.

Lemma while_not_y_n_retry fuel p res w :
  is_answer res = false -> while_not_y_n (S fuel) p res w = ask fuel p w.
Proof.
  unfold is_answer. intros H%bool_decide_eq_false.
  simpl. by rewrite bool_decide_eq_true_2.
Qed.

Lemma while_not_y_n_out p res w :
  is_answer res = false -> while_not_y_n 0 p res w = (OutOfFuel, w).
Proof.
  unfold is_answer. intros H%bool_decide_eq_false.
  simpl. by rewrite bool_decide_eq_true_2.
Qed.

Lemma prompted_0 w p : prompted w p 0 = w.
Proof. unfold prompted. simpl. by rewrite Nat.add_0_r, app_nil_r, world_eta. Qed.

Lemma prompted_prompted w p a b : prompted (prompted w p a) p b = prompted w p (a + b).
Proof.
  unfold prompted. simpl. by rewrite Nat.add_assoc, <- app_assoc, <- replicate_add.
Qed.

Lemma ask_input fuel p w :
  ask fuel p w = while_not_y_n fuel p (stdin w (cursor w)) (prompted w p 1).
Proof. unfold ask, bind, input, prompted. simpl. by rewrite Nat.add_1_r. Qed.

(** The loop returns the first answer, after one prompt for it and one
    for each line before it. *)
Lemma ask_answer p k : forall fuel w,
  first_answer_at w k -> (k <= fuel)%nat ->
  ask fuel p w = (Ok (stdin w (cursor w + k)), prompted w p (S k)).
Proof.
  induction k as [|k IH]; intros fuel w [Hk Hbefore] Hfuel; rewrite ask_input.
  - rewrite Nat.add_0_r in *. by apply while_not_y_n_answer.
  - destruct fuel as [|fuel]; [lia|].
    rewrite while_not_y_n_retry
      by (rewrite <- (Nat.add_0_r (cursor w)); apply Hbefore; lia).
    rewrite (IH fuel (prompted w p 1)); [| |lia].
    + rewrite prompted_prompted. simpl. do 3 f_equal. lia.
    + split; simpl.
      * by replace (cursor w + 1 + k)%nat with (cursor w + S k)%nat by lia.
      * intros j Hj.
        replace (cursor w + 1 + j)%nat with (cursor w + S j)%nat by lia.
        apply Hbefore. lia.
Qed.

(** As long as no line answers, the loop prompts again. *)
Lemma ask_out_of_fuel p fuel : forall w,
  (forall j, (j <= fuel)%nat -> is_answer (stdin w (cursor w + j)) = false) ->
  ask fuel p w = (OutOfFuel, prompted w p (S fuel)).
Proof.
  induction fuel as [|fuel IH]; intros w Hno; rewrite ask_input.
  - apply while_not_y_n_out. rewrite <- (Nat.add_0_r (cursor w)). by apply Hno.
  - rewrite while_not_y_n_retry
      by (rewrite <- (Nat.add_0_r (cursor w)); apply Hno; lia).
    rewrite IH, prompted_prompted; [done|].
    intros j Hj. simpl.
    replace (cursor w + 1 + j)%nat with (cursor w + S j)%nat by lia.
    apply Hno. lia.
Qed.

(** Among the first lines, either one answers or none does. *)
Lemma first_answer_search (w : world) n :
  (exists k, (k <= n)%nat /\ first_answer_at w k) \/
  (forall j, (j <= n)%nat -> is_answer (stdin w (cursor w + j)) = false).
Proof.
  induction n as [|n [(k & Hk & Hfirst)|Hno]].
  - destruct (is_answer (stdin w (cursor w + 0))) eqn:H0.
    + left. exists 0%nat. split; [done|]. split; [done|]. intros; lia.
    + right. intros j Hj. by replace j with 0%nat by lia.
  - left. exists k. split; [lia|done].
  - destruct (is_answer (stdin w (cursor w + S n))) eqn:Hn.
    + left. exists (S n). split; [done|]. split; [done|].
      intros j Hj. apply Hno. lia.
    + right. intros j Hj. destruct (decide (j = S n)) as [->|]; [done|].
      apply Hno. lia.
Qed.

(** The loop never raises, and it only prompts. *)
Lemma ask_outcome fuel p w :
  (exists k, (k <= fuel)%nat /\ first_answer_at w k /\
     ask fuel p w = (Ok (stdin w (cursor w + k)), prompted w p (S k))) \/
  ((forall j, (j <= fuel)%nat -> is_answer (stdin w (cursor w + j)) = false) /\
   ask fuel p w = (OutOfFuel, prompted w p (S fuel))).
Proof.
  destruct (first_answer_search w fuel) as [(k & Hk & Hfirst)|Hno].
  - left. exists k. split_and!; [done..|]. by apply ask_answer.
  - right. split; [done|]. by apply ask_out_of_fuel.
Qed.

Lemma act_on_disk_raised res p w e w' :
  act_on res p w = (Raised e, w') ->
  w' = w /\ can_remove (disk w) p = false /\ e = remove_error (disk w) p.
Proof.
  unfold act_on, bind, os_remove, can_remove, remove_error, print.
  destruct (String.eqb res "y"); [|discriminate].
  destruct (disk w !! p) as [[f|st names]|]; [destruct (deletable f)|..];
    intros [= <- <-]; done.
Qed.

(** A deletion that fails, in either mode, leaves the disk as it was. *)
Lemma delete_one_raised fuel flag p w e w' :
  delete_one fuel flag p w = (Raised e, w') ->
  (exists n, w' = prompted w p n) /\
  can_remove (disk w) p = false /\ e = remove_error (disk w) p.
Proof.
  destruct flag.
  - rewrite delete_one_prompted. unfold bind.
    destruct (ask_outcome fuel p w) as [(k & _ & _ & ->)|[_ ->]]; [|discriminate].
    intros (-> & Hcan & He)%act_on_disk_raised. split; [by eexists|done].
  - rewrite delete_one_unprompted.
    destruct (can_remove (disk w) p); [discriminate|].
    intros [= <- <-]. split; [|done]. exists 0%nat. by rewrite prompted_0.
Qed.

Lemma for_each_singleton {A} (x : A) (body : A -> M unit) w :
  for_each [x] body w = body x w.
Proof.
  rewrite for_each_cons. unfold bind. by destruct (body x w) as [[[]|e|] w'].
Qed.

Lemma act_on_not_out_of_fuel res p w : (act_on res p w).1 <> OutOfFuel.
Proof.
  unfold act_on, bind, os_remove, print.
  destruct (String.eqb res "y"); [|done].
  destruct (disk w !! p) as [[f|st names]|]; [destruct (deletable f)|..]; done.
Qed.

(** C6.  With confirmation, what either deletion loop does for a candidate
    is decided by the first line of the terminal that is [y] or [n]: the
    candidate is prompted once for each line up to that one, then removed
    if the line is [y] and skipped if it is [n].  While no such line has
    come, the loop is still prompting.  So some number of iterations ends
    the loop exactly when such a line exists. *)
Theorem confirmation_decided_by_first_answer p w :
  (forall fuel p0,
     remove_duplicates_files fuel [[p0; p]] true w = delete_one fuel true p w /\
     remove_invalid_files fuel [p] true w = delete_one fuel true p w) /\
  (forall k fuel, first_answer_at w k -> (k <= fuel)%nat ->
     (stdin w (cursor w + k) = "y" /\
      delete_one fuel true p w =
      (os_remove p ;; print (format SUCCESSFULLY_REMOVED_MSG p)) (prompted w p (S k))) \/
     (stdin w (cursor w + k) = "n" /\
      delete_one fuel true p w =
      (Ok tt, with_output (prompted w p (S k)) [format CANCELLED_BY_USER_MSG p]))) /\
  (forall fuel,
     (forall j, (j <= fuel)%nat -> is_answer (stdin w (cursor w + j)) = false) ->
     delete_one fuel true p w = (OutOfFuel, prompted w p (S fuel))) /\
  ((exists fuel, (delete_one fuel true p w).1 <> OutOfFuel) <->
   (exists i, is_answer (stdin w (cursor w + i)) = true)).
Proof.
  split_and!.
  - intros fuel p0. split.
    + rewrite remove_duplicates_files_unfold. apply for_each_singleton.
    + rewrite remove_invalid_files_unfold. apply for_each_singleton.
  - intros k fuel Hfirst Hfuel.
    assert (delete_one fuel true p w =
            act_on (stdin w (cursor w + k)) p (prompted w p (S k))) as ->.
    { rewrite delete_one_prompted. unfold bind.
      by rewrite (ask_answer p k fuel w Hfirst Hfuel). }
    destruct Hfirst as [[->| ->]%is_answer_spec _];
      [left|right]; split; reflexivity.
  - intros fuel Hno. rewrite delete_one_prompted. unfold bind.
    by rewrite ask_out_of_fuel.
  - split.
    + intros [fuel Hend]. rewrite delete_one_prompted in Hend. unfold bind in Hend.
      destruct (ask_outcome fuel p w) as [(k & _ & [Hk _] & _)|[_ Hout]].
      * by exists k.
      * by rewrite Hout in Hend.
    + intros [i Hi].
      destruct (first_answer_search w i) as [(k & Hk & Hfirst)|Hno].
      * exists k. rewrite delete_one_prompted. unfold bind.
        rewrite (ask_answer p k k w Hfirst) by done. apply act_on_not_out_of_fuel.
      * rewrite Hno in Hi by done. discriminate.
Qed.

Lemma delete_one_refused fuel p w :
  stdin w (cursor w) = "n" ->
  delete_one fuel true p w =
  (Ok tt, mk_world (disk w) (stdin w) (S (cursor w))
            (stdout w ++ [confirmation_prompt p; format CANCELLED_BY_USER_MSG p])).
Proof.
  intros Hn. rewrite delete_one_prompted. unfold bind.
  rewrite (ask_answer p 0 fuel w); [|split; [|intros; lia]|lia].
  - rewrite Nat.add_0_r, Hn. unfold act_on, print, prompted. simpl.
    by rewrite Nat.add_1_r, <- app_assoc.
  - by rewrite Nat.add_0_r, Hn.
Qed.

Lemma refused_loop fuel l : forall w,
  (forall i, (cursor w <= i)%nat -> stdin w i = "n") ->
  for_each l (delete_one fuel true) w =
  (Ok tt, mk_world (disk w) (stdin w) (cursor w + length l)
            (stdout w ++
             concat (map (fun p => [confirmation_prompt p;
                                    format CANCELLED_BY_USER_MSG p]) l))).
Proof.
  induction l as [|p l IH]; intros w Hn.
  - simpl. unfold ret. by rewrite Nat.add_0_r, app_nil_r, world_eta.
  - rewrite for_each_cons. unfold bind. rewrite delete_one_refused by by apply Hn.
    rewrite IH by (simpl; intros i Hi; apply Hn; lia).
    simpl. rewrite <- app_assoc. do 3 f_equal. lia.
Qed.

(** C7.  When every line the terminal still has to give is [n], the
    duplicate executor run with confirmation returns, has asked once for
    each candidate, and leaves the disk exactly as it was, so that every
    member of every group is still there. *)
Theorem negative_answers_delete_nothing fuel groups w :
  (forall i, (cursor w <= i)%nat -> stdin w i = "n") ->
  exists w',
    remove_duplicates_files fuel groups true w = (Ok tt, w') /\
    disk w' = disk w /\
    cursor w' = (cursor w + length (concat (map tail groups)))%nat /\
    (forall g p, g ∈ groups -> p ∈ g -> disk w' !! p = disk w !! p).
Proof.
  intros Hn. eexists. split.
  - rewrite remove_duplicates_files_unfold. by apply refused_loop.
  - done.
Qed.

(** C3, as the script has it.  When the deletion of a candidate raises,
    in either mode, the exception leaves the duplicate executor at once:
    the run ends with that exception, the disk is the one the candidates
    before it left, and the candidates after it are not looked at. *)
Theorem deletion_failure_ends_the_run fuel flag groups pre p post w w1 e w2 :
  concat (map tail groups) = pre ++ p :: post ->
  for_each pre (delete_one fuel flag) w = (Ok tt, w1) ->
  delete_one fuel flag p w1 = (Raised e, w2) ->
  remove_duplicates_files fuel groups flag w = (Raised e, w2) /\
  e = remove_error (disk w1) p /\
  disk w2 = disk w1 /\
  (exists n, stdout w2 = stdout w1 ++ replicate n (confirmation_prompt p)).
Proof.
  intros Hcands Hpre Hfail. split.
  - rewrite remove_duplicates_files_unfold, Hcands, for_each_app.
    unfold bind at 1. rewrite Hpre, for_each_cons. unfold bind. by rewrite Hfail.
  - apply delete_one_raised in Hfail as ([n ->] & _ & ->).
    split_and!; [done..|]. by exists n.
Qed.

(** ** The command line and the walk *)

Lemma valid_arguments_cases d w :
  valid_arguments d w =
  if String.eqb d "" then
    (Ok false, with_output w [RED_BOLD_ANSI +:+ EMPTY_DIRECTORY_MSG])
  else
    match disk w !! d with
    | Some (Dir _ _) => (Ok true, w)
    | _ => (Ok false,
            with_output w [(RED_BOLD_ANSI +:+ INVALID_DIRECTORY_MSG) +:+ " " +:+ d])
    end.
Proof.
  unfold valid_arguments. destruct (String.eqb d ""); [reflexivity|].
  unfold bind, os_path_isdir, os_path_exists.
  destruct (disk w !! d) as [[f|st names]|] eqn:Hd; try reflexivity.
  simpl. rewrite bool_decide_eq_true_2 by (rewrite Hd; by eexists). reflexivity.
Qed.

(** C4, as the script has it.  [valid_arguments] has three results only:
    the empty-directory error, the not-a-directory error, and success; the
    path-not-found error is never printed.  A root path that is not a
    directory, whether it is a file or is missing, ends the script with
    the not-a-directory error, exit status 1, and nothing else printed. *)
Theorem missing_root_reported_as_not_a_directory md5 fuel args w :
  (valid_arguments (arg_directory args) w =
   if String.eqb (arg_directory args) "" then
     (Ok false, with_output w [RED_BOLD_ANSI +:+ EMPTY_DIRECTORY_MSG])
   else
     match disk w !! arg_directory args with
     | Some (Dir _ _) => (Ok true, w)
     | _ => (Ok false,
             with_output w [(RED_BOLD_ANSI +:+ INVALID_DIRECTORY_MSG) +:+ " "
                            +:+ arg_directory args])
     end) /\
  (arg_directory args <> "" ->
   (disk w !! arg_directory args = None \/
    exists f, disk w !! arg_directory args = Some (File f)) ->
   main md5 fuel args w =
   (Raised (SystemExit 1),
    with_output w [(RED_BOLD_ANSI +:+ INVALID_DIRECTORY_MSG) +:+ " "
                   +:+ arg_directory args]) /\
   exit_status (main md5 fuel args w).1 = Some 1).
Proof.
  split; [apply valid_arguments_cases|]. intros Hne Hnot.
  assert (Hmain : main md5 fuel args w =
    (Raised (SystemExit 1),
     with_output w [(RED_BOLD_ANSI +:+ INVALID_DIRECTORY_MSG) +:+ " "
                    +:+ arg_directory args])).
  { unfold main. unfold bind at 1. rewrite valid_arguments_cases.
    apply String.eqb_neq in Hne. rewrite Hne.
    destruct Hnot as [->|[f ->]]; reflexivity. }
  by rewrite Hmain.
Qed.

Lemma getting_files_is_not_the_notice d directory :
  format GETTING_FILES_MSG d <>
  (RED_BOLD_ANSI +:+ DIRECTORY_IS_EMPTY_MSG) +:+ " " +:+ directory.
Proof. discriminate. Qed.

(** C5, as the script has it.  For a directory without children the walk
    returns the empty list, and prints the line that announces the walk
    and nothing else: the notice for an empty directory is not printed. *)
Theorem empty_directory_gets_no_notice depth directory d rec w st names :
  disk w !! d = Some (Dir st names) ->
  scan (disk w) d names = [] ->
  get_files (S depth) directory d rec w =
    (Ok [], with_output w [format GETTING_FILES_MSG d]) /\
  (RED_BOLD_ANSI +:+ DIRECTORY_IS_EMPTY_MSG) +:+ " " +:+ directory
    ∉ [format GETTING_FILES_MSG d].
Proof.
  intros Hdir Hscan. split.
  - simpl. unfold bind, print, os_scandir. simpl. by rewrite Hdir, Hscan.
  - intros Hin%list_elem_of_singleton. symmetry in Hin.
    by apply getting_files_is_not_the_notice in Hin.
Qed.

(** ** Walking a disk from which files have been removed *)

Lemma get_files_unfold depth directory d rec w :
  get_files (S depth) directory d rec w =
  (print (format GETTING_FILES_MSG d) ;;
   dir_entry <- os_scandir d ;;
   for_fold dir_entry (collect depth directory rec) []) w.
Proof. reflexivity. Qed.

Lemma for_fold_disk {A S} (l : list A) (body : S -> A -> M S) :
  (forall s x w o w', body s x w = (o, w') -> disk w' = disk w) ->
  forall s w o w', for_fold l body s w = (o, w') -> disk w' = disk w.
Proof.
  intros Hbody. induction l as [|x l IH]; intros s w o w'; simpl.
  - by intros [= _ <-].
  - unfold bind. destruct (body s x w) as [[s1|e|] w1] eqn:Hx;
      apply Hbody in Hx; [|by intros [= _ <-]..].
    intros Hl%IH. congruence.
Qed.

(** The walk only prints. *)
Lemma get_files_disk depth directory : forall d rec w o w',
  get_files depth directory d rec w = (o, w') -> disk w' = disk w.
Proof.
  induction depth as [|depth IH]; intros d rec w o w'.
  - by intros [= _ <-].
  - rewrite get_files_unfold. unfold bind at 1, print at 1. unfold bind at 1.
    unfold os_scandir at 1. simpl.
    destruct (disk w !! d) as [[f|st names]|]; [by intros [= _ <-]| |by intros [= _ <-]].
    intros Hfold. apply for_fold_disk in Hfold; [done|].
    clear -IH. intros s x w o w'. unfold collect.
    destruct (is_file x); [by intros [= _ <-]|].
    destruct (is_dir x && rec); [|by intros [= _ <-]].
    unfold bind. destruct (get_files _ _ _ _ w) as [[sub|e|] w1] eqn:Hsub;
      apply IH in Hsub; by intros [= _ <-].
Qed.

Lemma path_entry_of p n : path (entry_of p n) = p.
Proof. by destruct n. Qed.

Lemma survivors_app gone es1 es2 :
  survivors gone (es1 ++ es2) = survivors gone es1 ++ survivors gone es2.
Proof. apply filter_app. Qed.

Lemma survivors_cons_gone gone e es :
  path e ∈ gone -> survivors gone (e :: es) = survivors gone es.
Proof. intros Hin. unfold survivors. rewrite filter_cons_False; [done|tauto]. Qed.

Lemma survivors_cons_kept gone e es :
  path e ∉ gone -> survivors gone (e :: es) = e :: survivors gone es.
Proof. intros Hin. unfold survivors. by rewrite filter_cons_True. Qed.

Lemma survivors_snoc_gone gone e es :
  path e ∈ gone -> survivors gone (es ++ [e]) = survivors gone es.
Proof.
  intros Hin. by rewrite survivors_app, survivors_cons_gone, app_nil_r.
Qed.

Lemma survivors_snoc_kept gone e es :
  path e ∉ gone -> survivors gone (es ++ [e]) = survivors gone es ++ [e].
Proof. intros Hin. by rewrite survivors_app, survivors_cons_kept. Qed.

Lemma scan_shrunk gone d d' dir names :
  shrunk gone d d' -> scan d' dir names = survivors gone (scan d dir names).
Proof.
  intros [Hgone Hkept]. unfold scan, survivors.
  induction names as [|nm names IH]; [done|]. cbn [omap list_omap].
  destruct (decide (os_path_join dir nm ∈ gone)) as [Hin|Hin].
  - destruct (Hgone _ Hin) as [-> Hreg]. unfold is_regular in Hreg.
    destruct (d !! os_path_join dir nm) as [n|]; [|done]. simpl.
    rewrite filter_cons_False; [done|]. rewrite path_entry_of. tauto.
  - rewrite (Hkept _ Hin). destruct (d !! os_path_join dir nm) as [n|]; [|done].
    simpl. rewrite filter_cons_True by by rewrite path_entry_of. by f_equal.
Qed.

Lemma scan_dirs_not_gone gone d d' dir names :
  shrunk gone d d' ->
  Forall (fun e => is_file e = false -> path e ∉ gone) (scan d dir names).
Proof.
  intros [Hgone _]. apply Forall_forall. intros e He Hfile Hin.
  unfold scan in He. apply list_elem_of_omap in He as (nm & _ & He).
  destruct (d !! os_path_join dir nm) as [n|] eqn:Hn; [|done].
  injection He as <-. rewrite path_entry_of in Hin.
  destruct (Hgone _ Hin) as [_ Hreg]. unfold is_regular in Hreg. rewrite Hn in Hreg.
  by destruct n.
Qed.

(** On a disk from which regular files have been removed, the walk finds
    the entries it found before, without those of the removed files. *)
Lemma get_files_shrunk gone directory rec depth : forall d w v es w',
  shrunk gone (disk w) (disk v) ->
  get_files depth directory d rec w = (Ok es, w') ->
  exists v',
    get_files depth directory d rec v = (Ok (survivors gone es), v') /\
    disk v' = disk v.
Proof.
  induction depth as [|depth IH]; intros d w v es w' Hsh; [discriminate|].
  rewrite !get_files_unfold. unfold bind at 1 3, print at 1 2.
  unfold bind at 1 2, os_scandir at 1 2. simpl.
  destruct (disk w !! d) as [[f|st names]|] eqn:Hd; [discriminate| |discriminate].
  assert (Hd' : disk v !! d = Some (Dir st names)).
  { destruct Hsh as [Hgone Hkept]. rewrite Hkept; [done|]. intros Hin.
    destruct (Hgone _ Hin) as [_ Hreg]. unfold is_regular in Hreg.
    by rewrite Hd in Hreg. }
  rewrite Hd', (scan_shrunk gone (disk w) (disk v)) by done.
  pose proof (scan_dirs_not_gone gone (disk w) (disk v) d names Hsh) as Hdirs.
  change (@nil DirEntry) with (survivors gone []) at 2.
  generalize (@nil DirEntry) as acc.
  set (w0 := mk_world (disk w) _ _ _). set (v0 := mk_world (disk v) _ _ _).
  assert (Hsh0 : shrunk gone (disk w0) (disk v0)) by done.
  assert (Hv0 : disk v0 = disk v) by done.
  clearbody w0 v0. clear Hd Hd'. revert w0 v0 Hsh0 Hv0.
  induction Hdirs as [|e l He _ IHl]; intros w0 v0 Hsh0 Hv0 acc.
  - intros [= <- _]. exists v0. by split.
  - simpl. unfold bind at 1. unfold collect at 1.
    destruct (is_file e) eqn:Hfile.
    + unfold ret at 1. intros Hrest.
      destruct (decide (path e ∈ gone)) as [Hin|Hin].
      * rewrite survivors_cons_gone by done.
        destruct (IHl w0 v0 Hsh0 Hv0 _ Hrest) as (v' & Hrun & Hv').
        rewrite survivors_snoc_gone in Hrun by done. by exists v'.
      * rewrite survivors_cons_kept by done.
        destruct (IHl w0 v0 Hsh0 Hv0 _ Hrest) as (v' & Hrun & Hv').
        rewrite survivors_snoc_kept in Hrun by done.
        exists v'. split; [|done]. simpl. unfold bind at 1, collect at 1.
        by rewrite Hfile.
    + specialize (He eq_refl).
      rewrite survivors_cons_kept by done.
      simpl. unfold bind at 2. unfold collect at 2. rewrite Hfile.
      destruct (is_dir e && rec).
      * unfold bind.
        destruct (get_files depth directory (path e) rec w0) as [[sub|?|] w1] eqn:Hsub;
          [|discriminate..].
        destruct (IH _ _ _ _ _ Hsh0 Hsub) as (v1 & -> & Hv1).
        apply get_files_disk in Hsub. unfold ret at 1 2. intros Hrest.
        destruct (IHl w1 v1) with (acc := acc ++ sub) as (v' & Hrun & Hv');
          [by rewrite Hsub, Hv1|congruence|done|].
        rewrite survivors_app in Hrun. exists v'. split; [done|congruence].
      * unfold ret at 1 2. intros Hrest. exact (IHl w0 v0 Hsh0 Hv0 acc Hrest).
Qed.

(** ** Running the script again *)

Lemma unprompted_loop_result fuel l w w' :
  for_each l (delete_one fuel false) w = (Ok tt, w') ->
  disk w' = unlink_all l (disk w) /\
  NoDup l /\ Forall (fun p => can_remove (disk w) p = true) l.
Proof.
  intros Hrun. destruct (unprompted_loop_inv _ _ _ _ Hrun) as [Hnd Hall].
  rewrite unprompted_loop_ok in Hrun by done. by injection Hrun as <-.
Qed.

Lemma filter_nil_forall {A} (P : A -> Prop) `{!forall a, Decision (P a)} (l : list A) :
  (forall x, x ∈ l -> ~ P x) -> filter P l = [].
Proof.
  intros Hnone. destruct (filter P l) as [|x l'] eqn:Hf; [done|].
  assert (Hx : x ∈ filter P l) by (rewrite Hf; left).
  apply list_elem_of_filter in Hx as [HP Hx]. by apply Hnone in Hx.
Qed.

Lemma survivors_of_tail_gone gone (G : list DirEntry) :
  (forall p, p ∈ tail (map path G) -> p ∈ gone) ->
  (length (survivors gone G) <= 1)%nat.
Proof.
  destruct G as [|e G]; [simpl; lia|]. simpl. intros Hgone.
  unfold survivors. rewrite filter_cons.
  rewrite (filter_nil_forall _ G).
  - destruct (decide _); simpl; lia.
  - intros x Hx Hnot. apply Hnot, Hgone. apply list_elem_of_fmap. by exists x.
Qed.

Lemma unlink_all_shrunk gone d :
  Forall (fun p => is_regular d p = true) gone -> shrunk gone d (unlink_all gone d).
Proof.
  intros Hreg. split.
  - intros p Hp. rewrite unlink_all_lookup, decide_True by done.
    split; [done|]. by eapply Forall_forall in Hreg.
  - intros p Hp. by rewrite unlink_all_lookup, decide_False.
Qed.

Section Rerun.
Variable md5 : list byte -> string.

(** The disk a completed run without confirmation leaves: the one it
    started on, without the later members of the groups and without the
    invalid files. *)
Lemma completed_run_disk fuel directory recursive w w' :
  main md5 fuel (mk_arguments directory true recursive false) w = (Ok tt, w') ->
  exists es wa,
    get_files fuel directory directory recursive w = (Ok es, wa) /\
    all_readable (disk w) es /\
    let found := classification md5 (disk w) es in
    shrunk (concat (map tail found.2) ++ found.1) (disk w) (disk w').
Proof.
  unfold main. cbn [arg_directory arg_recursive arg_confirmation arg_invalid_files].
  intros H. apply bind_inv_ok in H as (valid & w0 & Hvalid & H).
  rewrite valid_arguments_cases in Hvalid.
  apply bind_inv_ok in H as ([] & w0' & Hexit & H).
  destruct valid; [|discriminate]. injection Hexit as <-.
  assert (w0 = w) as ->.
  { destruct (String.eqb directory ""); [discriminate|].
    destruct (disk w !! directory) as [[f|st names]|]; by injection Hvalid. }
  apply bind_inv_ok in H as (es & wa & Hwalk & H).
  pose proof (get_files_disk _ _ _ _ _ _ _ Hwalk) as Hwa.
  apply bind_inv_ok in H as ([inv dups] & wb & Hclass & H).
  apply get_duplicates_inv in Hclass as (-> & Hread & Hcl).
  apply bind_inv_ok in H as ([] & wc & Hdups & H).
  apply bind_inv_ok in H as ([] & wd & Hinv & H).
  injection H as <-. cbn [disk].
  exists es, wa. rewrite Hwa in *. split_and!; [done..|].
  rewrite <- Hcl. cbn [fst snd].
  assert (Hc : disk wc = unlink_all (concat (map tail dups)) (disk wa) /\
               Forall (fun p => can_remove (disk wa) p = true) (concat (map tail dups))).
  { destruct dups as [|g gs].
    - injection Hdups as <-. split; [done|constructor].
    - apply bind_inv_ok in Hdups as ([] & wb & [= <-] & Hdups).
      rewrite remove_duplicates_files_unfold in Hdups.
      apply unprompted_loop_result in Hdups as (-> & _ & Hall). by split. }
  destruct Hc as [Hc Hcan].
  apply bind_inv_ok in Hinv as ([] & wc' & [= <-] & Hinv).
  rewrite remove_invalid_files_unfold in Hinv.
  apply unprompted_loop_result in Hinv as (-> & _ & Hcan'). cbn [disk] in *.
  rewrite Hc, Hwa in *. unfold unlink_all at 1 2. rewrite <- foldl_app.
  apply unlink_all_shrunk. apply Forall_app. split.
  - eapply Forall_impl; [exact Hcan|]. intros p. apply can_remove_regular.
  - eapply Forall_impl; [exact Hcan'|]. intros p Hp. apply can_remove_regular in Hp.
    unfold is_regular in *. rewrite unlink_all_lookup in Hp.
    by destruct (decide _).
Qed.

End Rerun.

Lemma digest_shrunk md5 gone d d' e :
  shrunk gone d d' -> path e ∉ gone -> digest md5 d' e = digest md5 d e.
Proof.
  intros [_ Hkept] Hin. unfold digest, file_bytes. by rewrite Hkept.
Qed.

(** C9.  After a run without confirmation that deleted the duplicates and
    the invalid files and ended normally, the walk of the same directory
    returns and the classifier, run on what the walk finds, returns no
    invalid file and no duplicate group. *)
Theorem rerun_after_deletion_finds_nothing md5 fuel directory recursive w w' :
  main md5 fuel (mk_arguments directory true recursive false) w = (Ok tt, w') ->
  exists es' w2,
    get_files fuel directory directory recursive w' = (Ok es', w2) /\
    get_duplicates md5 es' w2 = (Ok ([], []), w2).
Proof.
  intros (es & wa & Hwalk & Hread & Hsh)%completed_run_disk.
  set (found := classification md5 (disk w) es) in *. cbv zeta in Hsh.
  set (gone := concat (map tail found.2) ++ found.1) in *.
  destruct (get_files_shrunk gone directory recursive fuel directory w w' es wa Hsh Hwalk)
    as (w2 & Hwalk2 & Hw2).
  exists (survivors gone es), w2. split; [done|].
  rewrite <- Hw2 in Hsh.
  assert (Hsurv : forall e, e ∈ list_sort mtime (survivors gone es) ->
                    e ∈ es /\ path e ∉ gone).
  { intros e He%elem_of_list_sort. apply list_elem_of_filter in He. tauto. }
  rewrite get_duplicates_ok.
  2: { apply Forall_forall. intros e He.
       apply (elem_of_list_sort mtime) in He. apply Hsurv in He as [He Hin].
       eapply Forall_forall in Hread; [|exact He]. simpl in Hread.
       unfold can_read in *. destruct Hsh as [_ Hkept]. by rewrite Hkept. }
  enough (classification md5 (disk w2) (survivors gone es) = ([], [])) as -> by done.
  unfold classification. cbv zeta. f_equal.
  - rewrite filter_nil_forall; [reflexivity|]. intros e He Hinv.
    apply Hsurv in He as [He Hin]. apply Hin. apply elem_of_app. right.
    apply classification_invalid. exists e. split_and!; [done..|].
    by destruct (valid_file e).
  - apply filter_nil_forall. intros g Hg Hlen.
    apply Is_true_true in Hlen. apply Nat.ltb_lt in Hlen.
    apply dict_of_values in Hg as (k & _ & ->).
    rewrite digest_pairs_class in Hlen. unfold hash_group in Hlen.
    unfold survivors in Hlen at 1. rewrite <- list_sort_filter in Hlen.
    rewrite list_filter_filter in Hlen.
    rewrite (filter_ext_elem _ (fun e => (path e ∉ gone) /\ digest md5 (disk w) e = k))
      in Hlen.
    2: { intros e He. split.
         - intros [Hk Hin]. split; [done|].
           by rewrite <- (digest_shrunk md5 gone (disk w) (disk w2)).
         - intros [Hin Hk]. split; [|done].
           by rewrite (digest_shrunk md5 gone (disk w) (disk w2)). }
    rewrite <- list_filter_filter, length_map in Hlen.
    fold (survivors gone (filter (fun e => digest md5 (disk w) e = k)
                            (list_sort mtime es))) in Hlen.
    enough (length (survivors gone (filter (fun e => digest md5 (disk w) e = k)
                      (list_sort mtime es))) <= 1)%nat by lia.
    apply survivors_of_tail_gone. intros p Hp.
    apply elem_of_app. left. apply elem_of_concat.
    exists (tail (hash_group md5 (disk w) k (list_sort mtime es))).
    split; [|done]. apply list_elem_of_fmap. eexists. split; [done|].
    apply classification_groups. exists k. split; [done|].
    unfold hash_group. destruct (map path _) as [|p0 [|p1 l]];
      [by apply elem_of_nil in Hp..|simpl; lia].
Qed.

(** * The properties on the example worlds *)

Lemma plain_digest_inj a b : plain_digest a = plain_digest b -> a = b.
Proof.
  unfold plain_digest. intros H.
  rewrite <- (list_byte_of_string_of_list_byte a), H.
  apply list_byte_of_string_of_list_byte.
Qed.

Lemma plain_digest_collision_free d es : collision_free plain_digest d es.
Proof. intros e1 e2 _ _. apply plain_digest_inj. Qed.

Lemma scenario_readable : all_readable (disk scenario_world) scenario_entries.
Proof. repeat constructor. Qed.


Lemma zeros_readable : all_readable (disk zeros_world) zeros_entries.
Proof. repeat constructor. Qed.

Lemma zeros_sizes_agree : sizes_agree (disk zeros_world) zeros_entries.
Proof. repeat constructor. Qed.

Lemma zero_size_entries_invalid_and_grouped_witness :
  exists invalid groups,
    get_duplicates plain_digest zeros_entries zeros_world
      = (Ok (invalid, groups), zeros_world) /\
    ["d/old.bin"; "d/new.bin"] ∈ groups /\
    "d/new.bin" ∈ invalid.
Proof.
  destruct (zero_size_entries_invalid_and_grouped plain_digest zeros_world
              zeros_entries zeros_readable)
    as (invalid & groups & Hrun & Hinv & Hgroup).
  exists invalid, groups. split_and!; [done| |].
  - refine (proj1 (Hgroup zeros_sizes_agree (plain_digest_collision_free _ _)
                     (file_entry "d/new.bin" 0 2) (file_entry "d/old.bin" 0 1)
                     _ _ eq_refl eq_refl _)).
    + by left.
    + right; by left.
    + discriminate.
  - apply (Hinv (file_entry "d/new.bin" 0 2)); [by left|reflexivity].
Defined.

Lemma remove_duplicates_files_keeps_first_witness :
  exists w',
    remove_duplicates_files 0 [["d/a.txt"; "d/b.txt"]] false scenario_world
      = (Ok tt, w') /\
    is_Some (disk w' !! "d/a.txt") /\ disk w' !! "d/b.txt" = None.
Proof.
  destruct (remove_duplicates_files_keeps_first 0 [["d/a.txt"; "d/b.txt"]]
              scenario_world) as (w' & Hrun & _ & Hgroup).
  - compute_done.
  - simpl. repeat constructor; by eexists.
  - repeat constructor.
  - destruct (Hgroup ["d/a.txt"; "d/b.txt"]) as (p0 & rest & [= <- <-] & _ & _ & Hkept & Hgone).
    + by left.
    + simpl; lia.
    + exists w'. split_and!; [done..|]. apply Hgone. by left.
Defined.

Lemma remove_invalid_files_removes_all_witness :
  exists w',
    remove_invalid_files 0 ["d/old.bin"; "d/new.bin"] false zeros_world
      = (Ok tt, w') /\
    disk w' !! "d/old.bin" = None /\ disk w' !! "d/new.bin" = None.
Proof.
  destruct (remove_invalid_files_removes_all 0 "d/old.bin" ["d/new.bin"] zeros_world)
    as (w' & Hrun & Hfirst & Hrest & _).
  - compute_done.
  - repeat constructor.
  - exists w'. split_and!; [done..|]. apply Hrest. by left.
Defined.

Lemma negative_answers_delete_nothing_witness :
  exists w',
    remove_duplicates_files 0 [["d/a.txt"; "d/b.txt"]] true scenario_world
      = (Ok tt, w') /\
    disk w' = disk scenario_world.
Proof.
  destruct (negative_answers_delete_nothing 0 [["d/a.txt"; "d/b.txt"]] scenario_world)
    as (w' & Hrun & Hdisk & _).
  - reflexivity.
  - by exists w'.
Defined.

(** C3, the counterexample.  The second member of the group cannot be
    unlinked; the run ends with its exception, the third member, which
    could be removed, is still on the disk, and no line has been printed:
    no outcome is reported for the failing path, and the batch is not
    continued. *)
Lemma deletion_failure_is_not_isolated :
  let run := remove_duplicates_files 0 locked_groups false locked_world in
  run.1 = Raised PermissionError /\
  can_remove (disk locked_world) "d/c.txt" = true /\
  is_Some (disk run.2 !! "d/c.txt") /\
  stdout run.2 = [].
Proof. split_and!; [reflexivity..| |reflexivity]. by eexists. Qed.

Lemma deletion_failure_ends_the_run_witness :
  remove_duplicates_files 0 locked_groups false locked_world
    = (Raised PermissionError, locked_world).
Proof.
  refine (proj1 (deletion_failure_ends_the_run 0 false
                   locked_groups [] "d/b.txt" ["d/c.txt"]
                   locked_world locked_world PermissionError locked_world _ _ _));
    reflexivity.
Defined.

Lemma chatty_first_answer : first_answer_at chatty_world 2.
Proof.
  split; [reflexivity|]. intros j Hj.
  destruct j as [|[|j]]; [reflexivity..|lia].
Qed.

Lemma confirmation_decided_by_first_answer_witness :
  exists w',
    delete_one 5 true "d/b.txt" chatty_world = (Ok tt, w') /\
    cursor w' = 3%nat /\ disk w' !! "d/b.txt" = None.
Proof.
  destruct (proj1 (proj2 (confirmation_decided_by_first_answer "d/b.txt" chatty_world))
              2%nat 5%nat chatty_first_answer) as [[_ Hrun]|[Hn _]].
  - lia.
  - rewrite Hrun. eexists. split_and!; reflexivity.
  - discriminate Hn.
Defined.

Lemma missing_root_reported_as_not_a_directory_witness :
  main plain_digest 1 (mk_arguments "nope" false false false) scenario_world =
  (Raised (SystemExit 1),
   with_output scenario_world
     [(RED_BOLD_ANSI +:+ INVALID_DIRECTORY_MSG) +:+ " " +:+ "nope"]).
Proof.
  refine (proj1 (proj2 (missing_root_reported_as_not_a_directory plain_digest 1
                          (mk_arguments "nope" false false false) scenario_world)
                   _ _)).
  - discriminate.
  - left. reflexivity.
Defined.

Lemma empty_directory_gets_no_notice_witness :
  get_files 1 "d" "d" false bare_world =
  (Ok [], with_output bare_world [format GETTING_FILES_MSG "d"]).
Proof.
  refine (proj1 (empty_directory_gets_no_notice 0 "d" "d" false bare_world
                   dir_stat [] _ _)); reflexivity.
Defined.

Lemma rerun_after_deletion_finds_nothing_witness :
  exists es' w2,
    get_files 1 "d" "d" false
      (main plain_digest 1 (mk_arguments "d" true false false) scenario_world).2
      = (Ok es', w2) /\
    get_duplicates plain_digest es' w2 = (Ok ([], []), w2).
Proof.
  apply (rerun_after_deletion_finds_nothing plain_digest 1 "d" false scenario_world).
  vm_compute. reflexivity.
Defined.

(** The scenario of the specification, run without confirmation: the
    newer of the two equal files is removed, the other files stay, the
    empty one being listed only. *)
Example scenario_run :
  let run := main plain_digest 1 (mk_arguments "d" false false false)
               scenario_world in
  run.1 = Ok tt /\
  disk run.2 = delete "d/b.txt" scenario_disk /\
  stdout run.2 =
    [format GETTING_FILES_MSG "d"; REMOVING_DUPLICATE_FILES_MSG;
     format SUCCESSFULLY_REMOVED_MSG "d/b.txt"; INVALID_FILES_DETECTED_MSG;
     "d/empty.bin"; "Operation Completed"].
Proof. vm_compute. split_and!; reflexivity. Qed.

(** With two empty files and the deletion of invalid files requested, the
    run does not end normally: the newer empty file is removed as a
    duplicate, and the invalid loop then asks to remove it again. *)
Example two_empty_files_end_the_run :
  let run := main plain_digest 1 (mk_arguments "d" true false false)
               zeros_world in
  run.1 = Raised FileNotFoundError /\
  disk run.2 = delete "d/old.bin" (delete "d/new.bin" zeros_disk) /\
  exit_status run.1 = Some 1.
Proof. vm_compute. split_and!; reflexivity. Qed.

(** * Further properties *)

(** ** The walk *)

Lemma only_printed_refl w : only_printed w w.
Proof. split_and!; [done..|]. exists []. by rewrite app_nil_r. Qed.

Lemma only_printed_trans w1 w2 w3 :
  only_printed w1 w2 -> only_printed w2 w3 -> only_printed w1 w3.
Proof.
  intros (Hd1 & Hi1 & Hc1 & l1 & Ho1) (Hd2 & Hi2 & Hc2 & l2 & Ho2).
  split_and!; [congruence..|]. exists (l1 ++ l2). by rewrite Ho2, Ho1, app_assoc.
Qed.

Lemma print_only_printed s w : only_printed w (print s w).2.
Proof. split_and!; [done..|]. by exists [s]. Qed.

Lemma for_fold_only_printed {A S} (l : list A) (body : S -> A -> M S) :
  (forall s x w, only_printed w (body s x w).2) ->
  forall s w, only_printed w (for_fold l body s w).2.
Proof.
  intros Hbody. induction l as [|x l IH]; intros s w; simpl.
  - apply only_printed_refl.
  - unfold bind. pose proof (Hbody s x w) as Hx.
    destruct (body s x w) as [[s1|e|] w1]; [|done..].
    eapply only_printed_trans; [exact Hx|apply IH].
Qed.

Lemma get_files_only_printed depth directory : forall d rec w,
  only_printed w (get_files depth directory d rec w).2.
Proof.
  induction depth as [|depth IH]; intros d rec w.
  - apply only_printed_refl.
  - rewrite get_files_unfold. unfold bind at 1.
    pose proof (print_only_printed (format GETTING_FILES_MSG d) w) as Hp.
    destruct (print _ w) as [[[]|e|] w1]; [|done..]. simpl in Hp.
    eapply only_printed_trans; [exact Hp|]. unfold bind, os_scandir.
    destruct (disk w1 !! d) as [[f|st names]|]; [apply only_printed_refl| |apply only_printed_refl].
    apply for_fold_only_printed. clear -IH. intros s x w. unfold collect.
    destruct (is_file x); [apply only_printed_refl|].
    destruct (is_dir x && rec); [|apply only_printed_refl].
    unfold bind. pose proof (IH (path x) rec w) as Hsub.
    by destruct (get_files _ _ _ _ w) as [[sub|e|] w1].
Qed.

(** X1.  Whatever it returns, the walk has only printed: the disk is the
    one it started on, no line of the terminal has been read, and the
    lines printed before are still there. *)
Theorem get_files_reads_only depth directory d rec w :
  disk (get_files depth directory d rec w).2 = disk w /\
  stdin (get_files depth directory d rec w).2 = stdin w /\
  cursor (get_files depth directory d rec w).2 = cursor w /\
  exists lines, stdout (get_files depth directory d rec w).2 = stdout w ++ lines.
Proof. apply get_files_only_printed. Qed.

Lemma scan_on_disk d dir names :
  Forall (fun e => exists n, d !! path e = Some n /\ e = entry_of (path e) n)
    (scan d dir names).
Proof.
  apply Forall_forall. intros e He. unfold scan in He.
  apply list_elem_of_omap in He as (nm & _ & He).
  destruct (d !! os_path_join dir nm) as [n|] eqn:Hn; [|done].
  injection He as <-. rewrite path_entry_of. by exists n.
Qed.

Lemma for_fold_collect_files (D : gmap string node) (P : DirEntry -> Prop)
    depth directory rec :
  (forall d w es w', disk w = D ->
     get_files depth directory d rec w = (Ok es, w') -> Forall P es) ->
  forall l acc w res w',
    disk w = D ->
    Forall (fun e => is_file e = true -> P e) l -> Forall P acc ->
    for_fold l (collect depth directory rec) acc w = (Ok res, w') ->
    Forall P res.
Proof.
  intros Hsub. induction l as [|e l IH]; intros acc w res w' HD Hl Hacc; simpl.
  - by intros [= <- _].
  - apply Forall_cons in Hl as [He Hl]. unfold bind, collect at 1.
    destruct (is_file e).
    + apply IH; [done..|]. apply Forall_app. split; [done|]. constructor; auto.
    + destruct (is_dir e && rec); [|by apply IH].
      unfold bind. destruct (get_files _ _ _ _ w) as [[sub|?|] w1] eqn:Hrun;
        [|discriminate..].
      apply IH; [|done|].
      * apply get_files_disk in Hrun. congruence.
      * apply Forall_app. split; [done|]. by eapply Hsub.
Qed.

(** X2.  Every entry the walk returns is a regular file that is on the
    disk under the path of the entry, with the metadata of that file. *)
Theorem get_files_returns_files_on_disk depth directory d rec w es w' :
  get_files depth directory d rec w = (Ok es, w') ->
  Forall (fun e => is_file e = true /\
                   exists f, disk w !! path e = Some (File f) /\
                             stat e = metadata f) es.
Proof.
  remember (disk w) as D eqn:HD. symmetry in HD.
  revert d w es w' HD. induction depth as [|depth IH]; intros d w es w' HD; [discriminate|].
  rewrite get_files_unfold. unfold bind at 1, print at 1. unfold bind at 1, os_scandir at 1.
  cbn [disk]. rewrite HD.
  destruct (D !! d) as [[f|st names]|]; [discriminate| |discriminate].
  apply (for_fold_collect_files D); [exact IH|done| |constructor].
  eapply Forall_impl; [apply scan_on_disk|]. cbn beta.
  intros e (n & Hn & He) Hfile. split; [done|].
  rewrite He in Hfile |- *. rewrite path_entry_of. destruct n as [f|]; [|discriminate].
  by exists f.
Qed.

Lemma for_fold_collect_flat depth directory l : forall acc w,
  for_fold l (collect depth directory false) acc w =
  (Ok (acc ++ filter (fun e => is_file e) l), w).
Proof.
  induction l as [|e l IH]; intros acc w; simpl.
  - unfold ret. by rewrite filter_nil, app_nil_r.
  - unfold bind, collect at 1. rewrite filter_cons.
    destruct (is_file e); simpl.
    + unfold ret. rewrite IH. by rewrite <- app_assoc.
    + rewrite andb_false_r. unfold ret. apply IH.
Qed.

(** X3.  Without the recursive flag the walk of a directory returns the
    regular files among its children, in the order scandir gives them,
    after printing one line; subdirectories are left out and never
    entered, so that one level of calls is enough. *)
Theorem get_files_flat depth directory d w st names :
  disk w !! d = Some (Dir st names) ->
  get_files (S depth) directory d false w =
  (Ok (filter (fun e => is_file e) (scan (disk w) d names)),
   with_output w [format GETTING_FILES_MSG d]).
Proof.
  intros Hd. rewrite get_files_unfold. unfold bind, print, os_scandir. cbn [disk].
  rewrite Hd. rewrite for_fold_collect_flat. reflexivity.
Qed.

Lemma for_fold_collect_extends depth directory l : forall acc w res w',
  for_fold l (collect depth directory true) acc w = (Ok res, w') ->
  (acc ++ filter (fun e => is_file e) l) `sublist_of` res.
Proof.
  induction l as [|e l IH]; intros acc w res w'; simpl.
  - intros [= <- _]. by rewrite filter_nil, app_nil_r.
  - unfold bind, collect at 1. rewrite filter_cons.
    destruct (is_file e); simpl.
    + unfold ret. intros Hrest%IH. by rewrite <- app_assoc in Hrest.
    + destruct (is_dir e); simpl; [|apply IH].
      unfold bind. destruct (get_files _ _ _ _ w) as [[sub|?|] w1]; [|discriminate..].
      unfold ret. intros Hrest%IH. etrans; [|exact Hrest].
      apply sublist_app; [|done]. by apply sublist_inserts_r.
Qed.

(** X4.  With the recursive flag the walk returns, in the same order and
    among the files of the subdirectories, every file the walk without
    the flag returns. *)
Theorem get_files_recursive_extends depth directory d w es w' st names :
  disk w !! d = Some (Dir st names) ->
  get_files (S depth) directory d true w = (Ok es, w') ->
  filter (fun e => is_file e) (scan (disk w) d names) `sublist_of` es.
Proof.
  intros Hd. rewrite get_files_unfold. unfold bind at 1, print at 1.
  unfold bind at 1, os_scandir at 1. cbn [disk]. rewrite Hd.
  intros Hfold%for_fold_collect_extends. exact Hfold.
Qed.





(** ** The classifier *)

Lemma hash_loop_world md5 es : forall d w,
  (for_fold es (hash_step md5) d w).2 = w.
Proof.
  induction es as [|e es IH]; intros d w; [done|].
  simpl. unfold bind at 1, hash_step at 1, get_hash, bind.
  destruct (read_bytes (path e) w) as [[data|x|] w1] eqn:Hread;
    apply read_bytes_world in Hread; subst w1; [|done..].
  apply IH.
Qed.

Lemma get_duplicates_world md5 es w : (get_duplicates md5 es w).2 = w.
Proof.
  rewrite get_duplicates_unfold. unfold bind.
  pose proof (hash_loop_world md5 (list_sort mtime es) [] w) as Hw.
  by destruct (for_fold _ _ _ w) as [[d|e|] w1]; simpl in *.
Qed.

(** X6.  Whatever it returns, the classifier leaves the world as it
    found it: it removes nothing, reads no line of the terminal, and
    prints no line besides the progress bar. *)
Theorem get_duplicates_reads_only md5 es w :
  (get_duplicates md5 es w).2 = w /\
  forall o w', get_duplicates md5 es w = (o, w') -> w' = w.
Proof.
  split; [apply get_duplicates_world|].
  intros o w' Hrun. by rewrite <- (get_duplicates_world md5 es w), Hrun.
Qed.




Lemma valid_file_false e : valid_file e = false <-> size e <= 0.
Proof. unfold valid_file, size. destruct (Z.gtb_spec (stat_getitem (stat e) FILE_SIZE_INDEX) 0); split; (done || lia). Qed.

(** X8.  On a disk where every entry can be read, the invalid list holds
    the paths of the entries whose size is not positive and no other
    path, in the order of their modification times. *)
Theorem invalid_files_are_the_sizes_not_positive md5 w es :
  all_readable (disk w) es ->
  exists invalid groups,
    get_duplicates md5 es w = (Ok (invalid, groups), w) /\
    (forall p, p ∈ invalid <-> exists e, e ∈ es /\ path e = p /\ size e <= 0) /\
    exists l, invalid = map path l /\ key_sorted mtime l /\
              forall e, e ∈ l <-> e ∈ es /\ size e <= 0.
Proof.
  intros Hread.
  exists (classification md5 (disk w) es).1, (classification md5 (disk w) es).2.
  split; [rewrite get_duplicates_ok by done; by destruct (classification _ _ _)|].
  split.
  - intros p. rewrite classification_invalid. by setoid_rewrite valid_file_false.
  - eexists. split; [reflexivity|]. split.
    + apply key_sorted_filter, list_sort_sorted.
    + intros e. rewrite list_elem_of_filter, elem_of_list_sort, <- valid_file_false.
      destruct (valid_file e); simpl; intuition congruence.
Qed.

(** X9.  The members of each duplicate group are paths of entries with
    one and the same digest, listed in the order of their modification
    times. *)
Theorem groups_are_in_order_of_modification md5 w es :
  all_readable (disk w) es ->
  exists invalid groups,
    get_duplicates md5 es w = (Ok (invalid, groups), w) /\
    forall g, g ∈ groups ->
      exists k l, g = map path l /\ key_sorted mtime l /\
        forall e, e ∈ l <-> e ∈ es /\ digest md5 (disk w) e = k.
Proof.
  intros Hread.
  exists (classification md5 (disk w) es).1, (classification md5 (disk w) es).2.
  split; [rewrite get_duplicates_ok by done; by destruct (classification _ _ _)|].
  intros g (k & -> & _)%classification_groups. exists k. eexists.
  split; [reflexivity|]. split.
  - apply key_sorted_filter, list_sort_sorted.
  - intros e. rewrite list_elem_of_filter, elem_of_list_sort. tauto.
Qed.

Lemma NoDup_fmap_eq {A B} (f : A -> B) (l : list A) x y :
  NoDup (f <$> l) -> x ∈ l -> y ∈ l -> f x = f y -> x = y.
Proof.
  induction l as [|a l IH]; intros Hnd Hx Hy Hxy; [by apply elem_of_nil in Hx|].
  rewrite fmap_cons in Hnd. apply NoDup_cons in Hnd as [Ha Hnd].
  apply elem_of_cons in Hx as [->|Hx], Hy as [->|Hy]; [done| | |by apply IH].
  - exfalso. apply Ha. rewrite Hxy. by apply list_elem_of_fmap_2.
  - exfalso. apply Ha. rewrite <- Hxy. by apply list_elem_of_fmap_2.
Qed.

Lemma key_sorted_perm_eq {A} (key : A -> Z) (l1 l2 : list A) :
  key_sorted key l1 -> key_sorted key l2 -> l1 ≡ₚ l2 ->
  NoDup (key <$> l1) -> l1 = l2.
Proof.
  revert l2. induction l1 as [|x l1 IH]; intros l2 Hs1 Hs2 Hperm Hnd.
  - by apply Permutation_nil_l in Hperm.
  - destruct l2 as [|y l2]; [by apply Permutation_nil_r in Hperm|].
    assert (Hx : x ∈ y :: l2) by (rewrite <- Hperm; left).
    assert (Hy : y ∈ x :: l1) by (rewrite Hperm; left).
    assert (x = y) as <-.
    { apply (NoDup_fmap_eq key (x :: l1)); [done|by left|done|].
      pose proof (key_sorted_head key _ _ _ Hs1 Hy).
      pose proof (key_sorted_head key _ _ _ Hs2 Hx). lia. }
    f_equal. apply Permutation_cons_inv in Hperm.
    apply StronglySorted_inv in Hs1 as [Hs1 _], Hs2 as [Hs2 _].
    rewrite fmap_cons in Hnd. apply NoDup_cons in Hnd as [_ Hnd]. by apply IH.
Qed.

(** X10.  When the modification times of the entries are pairwise
    distinct, the classifier does not depend on the order in which the
    walk found them. *)
Theorem get_duplicates_independent_of_walk_order md5 es es' w :
  es ≡ₚ es' -> NoDup (mtime <$> es) ->
  get_duplicates md5 es' w = get_duplicates md5 es w.
Proof.
  intros Hperm Hnd. rewrite !get_duplicates_unfold.
  replace (list_sort mtime es') with (list_sort mtime es); [done|].
  apply (key_sorted_perm_eq mtime); [apply list_sort_sorted..| |].
  - by rewrite !list_sort_perm.
  - by rewrite list_sort_perm.
Qed.

Lemma hash_group_NoDup md5 d k es :
  NoDup (map path es) -> NoDup (hash_group md5 d k es).
Proof.
  intros Hnd. unfold hash_group. eapply sublist_NoDup; [exact Hnd|].
  change (map path ?l) with (path <$> l). apply fmap_sublist, sublist_filter.
Qed.

(** X11.  An entry whose bytes are those of no entry with another path
    is in no duplicate group, so that the executor never has it among
    its candidates. *)
Theorem unique_content_is_in_no_group md5 w es e :
  all_readable (disk w) es ->
  collision_free md5 (disk w) es ->
  NoDup (map path es) ->
  e ∈ es ->
  (forall e', e' ∈ es -> path e' <> path e ->
     file_bytes (disk w) (path e') <> file_bytes (disk w) (path e)) ->
  exists invalid groups,
    get_duplicates md5 es w = (Ok (invalid, groups), w) /\
    forall g, g ∈ groups -> path e ∉ g.
Proof.
  intros Hread Hfree Hnd He Huniq.
  exists (classification md5 (disk w) es).1, (classification md5 (disk w) es).2.
  split; [rewrite get_duplicates_ok by done; by destruct (classification _ _ _)|].
  intros g (k & -> & Hlen)%classification_groups Hin.
  assert (Hnd' : NoDup (hash_group md5 (disk w) k (list_sort mtime es))).
  { apply hash_group_NoDup. change (map path ?l) with (path <$> l).
    by rewrite list_sort_perm. }
  assert (exists q, q ∈ hash_group md5 (disk w) k (list_sort mtime es) /\ q <> path e)
    as (q & Hq & Hne).
  { destruct (hash_group _ _ _ _) as [|a [|b l]]; [simpl in Hlen; lia..|].
    apply NoDup_cons in Hnd' as [Hab _].
    destruct (decide (a = path e)) as [->|Ha].
    - exists b. split; [right; left|]. intros ->. apply Hab. by left.
    - exists a. split; [by left|done]. }
  apply elem_of_hash_group in Hin as [Hk _].
  apply elem_of_hash_group in Hq as (Hkq & e' & He' & <-).
  apply elem_of_list_sort in He'.
  apply (Huniq e' He' Hne). apply Hfree; [done..|]. unfold digest. congruence.
Qed.

(** ** The deletion loops *)

Lemma delete_one_effect fuel flag p w :
  disk (delete_one fuel flag p w).2 = disk w \/
  (disk (delete_one fuel flag p w).2 = delete p (disk w) /\
   can_remove (disk w) p = true).
Proof.
  assert (Hact : forall res w0, disk w0 = disk w ->
            disk (act_on res p w0).2 = disk w \/
            (disk (act_on res p w0).2 = delete p (disk w) /\
             can_remove (disk w) p = true)).
  { intros res w0 Hw0. unfold act_on, bind, os_remove, print, can_remove.
    rewrite <- Hw0. destruct (String.eqb res "y"); [|by left].
    destruct (disk w0 !! p) as [[f|st names]|]; [|by left..].
    destruct (deletable f); [by right|by left]. }
  destruct flag.
  - rewrite delete_one_prompted. unfold bind.
    destruct (ask_outcome fuel p w) as [(k & _ & _ & ->)|[_ ->]]; [|by left].
    by apply Hact.
  - rewrite delete_one_unprompted. destruct (can_remove (disk w) p); [by right|by left].
Qed.

Lemma only_removed_refl l d : only_removed l d d.
Proof. intros q. by left. Qed.

Lemma only_removed_step p l d d' :
  can_remove d p = true -> only_removed l (delete p d) d' ->
  only_removed (p :: l) d d'.
Proof.
  intros Hp Hrest q. destruct (Hrest q) as [Hq|(Hq & Hin & Hreg)].
  - destruct (decide (q = p)) as [->|Hne].
    + right. rewrite Hq, lookup_delete_eq. split_and!; [done|by left|].
      by apply can_remove_regular.
    + left. by rewrite Hq, lookup_delete_ne.
  - right. split_and!; [done|by right|].
    unfold is_regular in *. destruct (decide (q = p)) as [->|Hne].
    + by rewrite lookup_delete_eq in Hreg.
    + by rewrite lookup_delete_ne in Hreg.
Qed.

Lemma only_removed_skip p l d d' : only_removed l d d' -> only_removed (p :: l) d d'.
Proof.
  intros Hrest q. destruct (Hrest q) as [Hq|(Hq & Hin & Hreg)]; [by left|].
  right. split_and!; [done|by right|done].
Qed.

Lemma loop_only_removes fuel flag l : forall w,
  only_removed l (disk w) (disk (for_each l (delete_one fuel flag) w).2).
Proof.
  induction l as [|p l IH]; intros w; [apply only_removed_refl|].
  rewrite for_each_cons. unfold bind.
  destruct (delete_one_effect fuel flag p w) as [Hsame|[Hdel Hcan]].
  - destruct (delete_one fuel flag p w) as [[[]|e|] w1]; cbn [snd] in *.
    + apply only_removed_skip. rewrite <- Hsame. apply IH.
    + rewrite Hsame. apply only_removed_refl.
    + rewrite Hsame. apply only_removed_refl.
  - destruct (delete_one fuel flag p w) as [[[]|e|] w1]; cbn [snd] in *.
    + apply only_removed_step; [done|]. rewrite <- Hdel. apply IH.
    + apply only_removed_step; [done|]. rewrite Hdel. apply only_removed_refl.
    + apply only_removed_step; [done|]. rewrite Hdel. apply only_removed_refl.
Qed.

(** X12.  In either mode, whatever the answers, the failures and the
    outcome, each path of the disk is after the duplicate executor what
    it was before, unless it is a later member of a group and was a
    regular file, in which case it may be gone.  The same holds of the
    invalid-file executor and the paths of its list.  So neither loop
    creates or alters a file, removes a directory, or touches the first
    member of a group that is not a later member as well. *)
Theorem executors_only_remove_candidates fuel flag groups invalid w :
  (forall q,
     disk (remove_duplicates_files fuel groups flag w).2 !! q = disk w !! q \/
     (disk (remove_duplicates_files fuel groups flag w).2 !! q = None /\
      q ∈ concat (map tail groups) /\ is_regular (disk w) q = true)) /\
  (forall q,
     disk (remove_invalid_files fuel invalid flag w).2 !! q = disk w !! q \/
     (disk (remove_invalid_files fuel invalid flag w).2 !! q = None /\
      q ∈ invalid /\ is_regular (disk w) q = true)).
Proof.
  split.
  - rewrite remove_duplicates_files_unfold. apply loop_only_removes.
  - rewrite remove_invalid_files_unfold. apply loop_only_removes.
Qed.

Lemma delete_one_accepted fuel p w :
  stdin w (cursor w) = "y" -> can_remove (disk w) p = true ->
  delete_one fuel true p w =
  (Ok tt, mk_world (delete p (disk w)) (stdin w) (S (cursor w))
            (stdout w ++ [confirmation_prompt p; format SUCCESSFULLY_REMOVED_MSG p])).
Proof.
  intros Hy Hcan. rewrite delete_one_prompted. unfold bind.
  rewrite (ask_answer p 0 fuel w); [|split; [|intros; lia]|lia].
  - rewrite Nat.add_0_r, Hy. unfold act_on, bind, os_remove, print, prompted.
    unfold can_remove in Hcan. simpl.
    destruct (disk w !! p) as [[f|st names]|]; [|discriminate..]. rewrite Hcan.
    simpl. by rewrite Nat.add_1_r, <- app_assoc.
  - by rewrite Nat.add_0_r, Hy.
Qed.

Lemma answers_from_tail w w' b bs :
  answers_from w (b :: bs) -> stdin w' = stdin w -> cursor w' = S (cursor w) ->
  answers_from w' bs.
Proof.
  intros Hans Hin Hcur i c Hi. rewrite Hin, Hcur.
  replace (S (cursor w) + i)%nat with (cursor w + S i)%nat by lia.
  by apply Hans.
Qed.

Lemma elem_of_accepted p l bs : p ∈ accepted l bs -> p ∈ l.
Proof.
  revert bs. induction l as [|q l IH]; intros [|b bs]; simpl;
    try by intros ?%elem_of_nil.
  destruct b.
  - intros [->|Hin]%elem_of_cons; [by left|right; by eapply IH].
  - intros Hin. right. by eapply IH.
Qed.

(** One answer for each candidate: the candidates answered [y] are
    removed, the others stay. *)
Lemma answered_loop fuel l : forall bs w,
  length bs = length l ->
  answers_from w bs ->
  NoDup (accepted l bs) ->
  Forall (fun p => can_remove (disk w) p = true) (accepted l bs) ->
  exists w',
    for_each l (delete_one fuel true) w = (Ok tt, w') /\
    disk w' = unlink_all (accepted l bs) (disk w) /\
    stdin w' = stdin w /\
    cursor w' = (cursor w + length l)%nat.
Proof.
  induction l as [|p l IH]; intros [|b bs] w Hlen Hans Hnd Hcan; try discriminate.
  - exists w. split_and!; [done..|]. simpl. lia.
  - injection Hlen as Hlen. rewrite for_each_cons. unfold bind.
    assert (Hline : stdin w (cursor w) = if b then "y" else "n").
    { rewrite <- (Nat.add_0_r (cursor w)). by apply Hans. }
    destruct b; cbn [accepted] in *.
    + apply NoDup_cons in Hnd as [Hp Hnd]. apply Forall_cons in Hcan as [Hcp Hcan].
      rewrite delete_one_accepted by done.
      destruct (IH bs (mk_world (delete p (disk w)) (stdin w) (S (cursor w))
                         (stdout w ++ [confirmation_prompt p;
                                       format SUCCESSFULLY_REMOVED_MSG p])))
        as (w' & Hrun & Hdisk & Hin & Hcur); [done| |done| |].
      * by eapply answers_from_tail.
      * cbn [disk]. apply Forall_forall. intros q Hq.
        rewrite can_remove_delete by (intros ->; done).
        by eapply Forall_forall in Hcan.
      * exists w'. split_and!; [done..|]. rewrite Hcur. simpl. lia.
    + rewrite delete_one_refused by done.
      destruct (IH bs (mk_world (disk w) (stdin w) (S (cursor w))
                         (stdout w ++ [confirmation_prompt p;
                                       format CANCELLED_BY_USER_MSG p])))
        as (w' & Hrun & Hdisk & Hin & Hcur); [done| |done..|].
      * by eapply answers_from_tail.
      * exists w'. split_and!; [done..|]. rewrite Hcur. simpl. lia.
Qed.

(** X13.  With confirmation and one answer, [y] or [n], for each later
    member of the groups, the duplicate executor returns after reading
    these answers and has removed the members answered [y] and no other
    path, the accepted members being distinct and removable. *)
Theorem remove_duplicates_files_follows_the_answers fuel groups bs w :
  length bs = length (concat (map tail groups)) ->
  answers_from w bs ->
  NoDup (accepted (concat (map tail groups)) bs) ->
  Forall (fun p => can_remove (disk w) p = true)
    (accepted (concat (map tail groups)) bs) ->
  exists w',
    remove_duplicates_files fuel groups true w = (Ok tt, w') /\
    cursor w' = (cursor w + length bs)%nat /\
    forall q, disk w' !! q =
              if decide (q ∈ accepted (concat (map tail groups)) bs)
              then None else disk w !! q.
Proof.
  intros Hlen Hans Hnd Hcan.
  destruct (answered_loop fuel _ bs w Hlen Hans Hnd Hcan) as (w' & Hrun & Hdisk & _ & Hcur).
  exists w'. rewrite remove_duplicates_files_unfold. split_and!; [done|congruence|].
  intros q. rewrite Hdisk. apply unlink_all_lookup.
Qed.

(** X14.  The same for the invalid-file executor: with one answer for
    each path of its list, it removes the paths answered [y] and no
    other; with every answer [n] the disk is as it was. *)
Theorem remove_invalid_files_follows_the_answers fuel l bs w :
  length bs = length l ->
  answers_from w bs ->
  NoDup (accepted l bs) ->
  Forall (fun p => can_remove (disk w) p = true) (accepted l bs) ->
  exists w',
    remove_invalid_files fuel l true w = (Ok tt, w') /\
    cursor w' = (cursor w + length bs)%nat /\
    (forall q, disk w' !! q =
               if decide (q ∈ accepted l bs) then None else disk w !! q) /\
    (Forall (fun b => b = false) bs -> disk w' = disk w).
Proof.
  intros Hlen Hans Hnd Hcan.
  destruct (answered_loop fuel _ bs w Hlen Hans Hnd Hcan) as (w' & Hrun & Hdisk & _ & Hcur).
  exists w'. rewrite remove_invalid_files_unfold. split_and!; [done|congruence| |].
  - intros q. rewrite Hdisk. apply unlink_all_lookup.
  - intros Hno. rewrite Hdisk. clear -Hno. revert l.
    induction Hno as [|b bs -> _ IH]; intros [|p l]; try done. apply IH.
Qed.

(** X15.  The invalid-file executor is run over a list as over its
    parts, one after the other, and a removal that raises ends it: the
    paths after the failing one are not looked at and the disk is the one
    the paths before it left. *)
Theorem invalid_deletion_failure_ends_the_run fuel flag pre p post w w1 e w2 :
  remove_invalid_files fuel pre flag w = (Ok tt, w1) ->
  remove_invalid_files fuel [p] flag w1 = (Raised e, w2) ->
  remove_invalid_files fuel (pre ++ p :: post) flag w = (Raised e, w2) /\
  e = remove_error (disk w1) p /\
  disk w2 = disk w1.
Proof.
  rewrite !remove_invalid_files_unfold, for_each_singleton. intros Hpre Hfail.
  split.
  - rewrite for_each_app. unfold bind at 1. rewrite Hpre, for_each_cons.
    unfold bind. by rewrite Hfail.
  - apply delete_one_raised in Hfail as ([n ->] & _ & ->). done.
Qed.

(** X16.  A group with fewer than two members gives the duplicate
    executor nothing to do: on such groups it returns at once, in either
    mode, without a prompt, a line or a removal. *)
Theorem small_groups_are_left_alone fuel flag groups w :
  Forall (fun g => (length g <= 1)%nat) groups ->
  remove_duplicates_files fuel groups flag w = (Ok tt, w).
Proof.
  intros Hsmall. rewrite remove_duplicates_files_unfold.
  replace (concat (map tail groups)) with (@nil string); [done|].
  induction Hsmall as [|g gs Hg _ IH]; [done|]. simpl. rewrite <- IH.
  destruct g as [|p [|q g]]; [done..|simpl in Hg; lia].
Qed.

(** ** The script as a whole *)

Lemma lost_files_only_refl d : lost_files_only d d.
Proof. intros q. by left. Qed.

Lemma lost_files_only_trans d1 d2 d3 :
  lost_files_only d1 d2 -> lost_files_only d2 d3 -> lost_files_only d1 d3.
Proof.
  intros H12 H23 q. destruct (H23 q) as [H3|[H3 Hreg]], (H12 q) as [H2|[H2 Hreg']].
  - left. congruence.
  - right. split; [congruence|done].
  - right. split; [done|]. unfold is_regular in *. by rewrite <- H2.
  - right. by split.
Qed.

Lemma only_removed_lost l d d' : only_removed l d d' -> lost_files_only d d'.
Proof. intros H q. destruct (H q) as [?|(? & _ & ?)]; [by left|by right]. Qed.

Lemma only_printed_lost w w' : only_printed w w' -> lost_files_only (disk w) (disk w').
Proof. intros (-> & _). apply lost_files_only_refl. Qed.

Lemma bind_lost {A B} (m : M A) (k : A -> M B) w :
  lost_files_only (disk w) (disk (m w).2) ->
  (forall a w1, lost_files_only (disk w1) (disk (k a w1).2)) ->
  lost_files_only (disk w) (disk (bind m k w).2).
Proof.
  intros Hm Hk. unfold bind. destruct (m w) as [[a|e|] w1]; [|done..].
  eapply lost_files_only_trans; [exact Hm|apply Hk].
Qed.

Lemma for_each_print l w : for_each l print w = (Ok tt, with_output w l).
Proof.
  revert w. induction l as [|s l IH]; intros w.
  - simpl. unfold ret. by rewrite with_output_nil.
  - rewrite for_each_cons. unfold bind, print at 1. rewrite IH.
    unfold with_output. simpl. by rewrite <- app_assoc.
Qed.

Lemma valid_arguments_only_printed d w : only_printed w (valid_arguments d w).2.
Proof.
  rewrite valid_arguments_cases. destruct (String.eqb d "").
  - split_and!; [done..|]. by eexists.
  - destruct (disk w !! d) as [[f|st names]|].
    + split_and!; [done..|]. by eexists.
    + apply only_printed_refl.
    + split_and!; [done..|]. by eexists.
Qed.

Lemma main_lost md5 fuel args w :
  lost_files_only (disk w) (disk (main md5 fuel args w).2).
Proof.
  unfold main. apply bind_lost.
  { apply only_printed_lost, valid_arguments_only_printed. }
  intros valid w1. apply bind_lost.
  { destruct valid; apply lost_files_only_refl. }
  intros _ w2. apply bind_lost.
  { apply only_printed_lost, get_files_only_printed. }
  intros es w3. apply bind_lost.
  { rewrite get_duplicates_world. apply lost_files_only_refl. }
  intros [invalid groups] w4. apply bind_lost.
  { destruct groups as [|g gs]; [apply lost_files_only_refl|].
    apply bind_lost; [apply lost_files_only_refl|]. intros _ w5.
    rewrite remove_duplicates_files_unfold.
    eapply only_removed_lost, loop_only_removes. }
  intros _ w5. apply bind_lost; [|intros; apply lost_files_only_refl].
  destruct (arg_invalid_files args).
  - apply bind_lost; [apply lost_files_only_refl|]. intros _ w6.
    rewrite remove_invalid_files_unfold.
    eapply only_removed_lost, loop_only_removes.
  - destruct invalid as [|p l]; [apply lost_files_only_refl|].
    apply bind_lost; [apply lost_files_only_refl|]. intros _ w6.
    rewrite for_each_print. apply lost_files_only_refl.
Qed.

(** X17.  Whatever the command line, the answers and the outcome, each
    path of the disk is after the script what it was before, unless it
    was a regular file and is gone: the script creates and alters nothing
    and removes no directory. *)
Theorem main_only_removes_regular_files md5 fuel args w q :
  disk (main md5 fuel args w).2 !! q = disk w !! q \/
  (disk (main md5 fuel args w).2 !! q = None /\ is_regular (disk w) q = true).
Proof. apply main_lost. Qed.

Lemma refusing_undisturbed w w' : refusing w -> undisturbed w w' -> refusing w'.
Proof. intros Hn (_ & Hin & Hcur) i Hi. rewrite Hin. apply Hn. lia. Qed.

Lemma undisturbed_refl w : undisturbed w w.
Proof. by split_and!. Qed.

Lemma only_printed_undisturbed w w' : only_printed w w' -> undisturbed w w'.
Proof. intros (Hd & Hi & Hc & _). split_and!; [done..|lia]. Qed.

Lemma print_undisturbed s w : undisturbed w (print s w).2.
Proof. apply only_printed_undisturbed, print_only_printed. Qed.

Lemma bind_undisturbed {A B} (m : M A) (k : A -> M B) w :
  refusing w ->
  undisturbed w (m w).2 ->
  (forall a w1, refusing w1 -> undisturbed w1 (k a w1).2) ->
  undisturbed w (bind m k w).2.
Proof.
  intros Hn Hm Hk. unfold bind. destruct (m w) as [[a|e|] w1]; [|done..].
  simpl in Hm. pose proof (Hk a w1 (refusing_undisturbed _ _ Hn Hm)) as Hk1.
  destruct Hm as (Hd & Hi & Hc), Hk1 as (Hd' & Hi' & Hc').
  split_and!; [congruence..|lia].
Qed.

Lemma refused_loop_undisturbed fuel l w :
  refusing w -> undisturbed w (for_each l (delete_one fuel true) w).2.
Proof.
  intros Hn. rewrite refused_loop by done. split_and!; [done..|simpl; lia].
Qed.

(** X18.  With the confirmation flag and a terminal that answers [n] to
    everything, the script leaves the disk as it found it, whatever the
    other flags and whatever the outcome. *)
Theorem main_refused_leaves_the_disk md5 fuel args w :
  arg_confirmation args = true ->
  refusing w ->
  disk (main md5 fuel args w).2 = disk w.
Proof.
  intros Hflag Hn. enough (undisturbed w (main md5 fuel args w).2) as [? _] by done.
  unfold main. rewrite Hflag. apply bind_undisturbed; [done| |].
  { apply only_printed_undisturbed, valid_arguments_only_printed. }
  intros valid w1 Hn1. apply bind_undisturbed; [done| |].
  { destruct valid; apply undisturbed_refl. }
  intros _ w2 Hn2. apply bind_undisturbed; [done| |].
  { apply only_printed_undisturbed, get_files_only_printed. }
  intros es w3 Hn3. apply bind_undisturbed; [done| |].
  { rewrite get_duplicates_world. apply undisturbed_refl. }
  intros [invalid groups] w4 Hn4. apply bind_undisturbed; [done| |].
  { destruct groups as [|g gs]; [apply print_undisturbed|].
    apply bind_undisturbed; [done|apply print_undisturbed|]. intros _ w5 Hn5.
    rewrite remove_duplicates_files_unfold. by apply refused_loop_undisturbed. }
  intros _ w5 Hn5.
  apply bind_undisturbed; [done| |intros; apply print_undisturbed].
  destruct (arg_invalid_files args).
  - apply bind_undisturbed; [done|apply print_undisturbed|]. intros _ w6 Hn6.
    rewrite remove_invalid_files_unfold. by apply refused_loop_undisturbed.
  - destruct invalid as [|p l]; [apply undisturbed_refl|].
    apply bind_undisturbed; [done|apply print_undisturbed|]. intros _ w6 Hn6.
    rewrite for_each_print. by split_and!.
Qed.

Lemma get_files_ok_dir depth directory d rec w es w' :
  get_files depth directory d rec w = (Ok es, w') ->
  exists st names, disk w !! d = Some (Dir st names).
Proof.
  destruct depth as [|depth]; [discriminate|].
  rewrite get_files_unfold. unfold bind at 1, print at 1. unfold bind at 1, os_scandir at 1.
  cbn [disk]. destruct (disk w !! d) as [[f|st names]|]; [discriminate| |discriminate].
  intros _. by exists st, names.
Qed.

(** The lines the script prints once the walk is over, when it runs
    without confirmation and without the deletion of invalid files. *)
Lemma main_phases md5 fuel d rec w es wa :
  d <> "" ->
  get_files fuel d d rec w = (Ok es, wa) ->
  all_readable (disk w) es ->
  main md5 fuel (mk_arguments d false rec false) w =
  (let found := classification md5 (disk w) es in
   (match found.2 with
    | _ :: _ =>
        print REMOVING_DUPLICATE_FILES_MSG ;;
        remove_duplicates_files fuel found.2 false
    | [] => print NO_DUPLICATES_MSG
    end ;;
    match found.1 with
    | _ :: _ => print INVALID_FILES_DETECTED_MSG ;; for_each found.1 print
    | [] => ret tt
    end ;;
    print "Operation Completed")%py wa).
Proof.
  intros Hne Hwalk Hread. destruct (get_files_ok_dir _ _ _ _ _ _ _ Hwalk) as (st & names & Hd).
  unfold main. cbn [arg_directory arg_recursive arg_confirmation arg_invalid_files].
  unfold bind at 1. rewrite valid_arguments_cases.
  apply String.eqb_neq in Hne. rewrite Hne, Hd. cbn [negb].
  unfold bind at 1. unfold ret at 1. unfold bind at 1. rewrite Hwalk.
  unfold bind at 1. pose proof (get_files_disk _ _ _ _ _ _ _ Hwalk) as Hwa.
  rewrite get_duplicates_ok by by rewrite Hwa. rewrite Hwa.
  by destruct (classification md5 (disk w) es).
Qed.

(** X19.  Let the walk of a directory return entries of distinct paths
    that can all be read, the later members of their groups being
    removable.  Then the script, run without confirmation and without
    the deletion of invalid files, ends normally with exit status 0; it
    has removed the later members of the groups and nothing else, the
    invalid files that are no such members being still there; and the
    last line it has printed is the line of completion. *)
Theorem main_removes_the_later_duplicates md5 fuel d rec w es wa :
  d <> "" ->
  get_files fuel d d rec w = (Ok es, wa) ->
  all_readable (disk w) es ->
  NoDup (map path es) ->
  Forall (fun p => can_remove (disk w) p = true)
    (concat (map tail (classification md5 (disk w) es).2)) ->
  exists w',
    main md5 fuel (mk_arguments d false rec false) w = (Ok tt, w') /\
    exit_status (main md5 fuel (mk_arguments d false rec false) w).1 = Some 0 /\
    (forall q, disk w' !! q =
               if decide (q ∈ concat (map tail (classification md5 (disk w) es).2))
               then None else disk w !! q) /\
    last (stdout w') = Some "Operation Completed".
Proof.
  intros Hne Hwalk Hread Hnd Hcan.
  enough (exists w',
    main md5 fuel (mk_arguments d false rec false) w = (Ok tt, w') /\
    (forall q, disk w' !! q =
               if decide (q ∈ concat (map tail (classification md5 (disk w) es).2))
               then None else disk w !! q) /\
    last (stdout w') = Some "Operation Completed") as (w' & Hrun & Hdisk & Hlast).
  { exists w'. by rewrite Hrun. }
  rewrite (main_phases md5 fuel d rec w es wa) by done. cbv zeta.
  pose proof (get_files_disk _ _ _ _ _ _ _ Hwalk) as Hwa.
  destruct (classification_groups_distinct md5 (disk w) es Hnd) as [Hnd' _].
  pose proof (sublist_NoDup _ _ Hnd' (tails_sublist _)) as Hndt.
  set (groups := (classification md5 (disk w) es).2) in *.
  set (invalid := (classification md5 (disk w) es).1) in *.
  assert (Hphase1 : exists w1,
    (match groups with
     | _ :: _ => print REMOVING_DUPLICATE_FILES_MSG ;;
                 remove_duplicates_files fuel groups false
     | [] => print NO_DUPLICATES_MSG
     end)%py wa = (Ok tt, w1) /\
    disk w1 = unlink_all (concat (map tail groups)) (disk w)).
  { destruct groups as [|g gs] eqn:Hg.
    - eexists. split; [reflexivity|]. by rewrite <- Hwa.
    - rewrite <- Hg in *. unfold bind, print. rewrite remove_duplicates_files_unfold.
      rewrite unprompted_loop_ok; [|done|by rewrite Hwa].
      eexists. split; [reflexivity|]. by rewrite <- Hwa. }
  destruct Hphase1 as (w1 & Hrun1 & Hdisk1).
  unfold bind at 1. rewrite Hrun1.
  assert (Hphase2 : exists lines,
    (match invalid with
     | _ :: _ => print INVALID_FILES_DETECTED_MSG ;; for_each invalid print
     | [] => ret tt
     end)%py w1 = (Ok tt, with_output w1 lines)).
  { destruct invalid as [|p l].
    - exists []. unfold ret. by rewrite with_output_nil.
    - exists (INVALID_FILES_DETECTED_MSG :: p :: l). unfold bind, print at 1.
      rewrite for_each_print. unfold with_output. simpl. by rewrite <- app_assoc. }
  destruct Hphase2 as (lines & Hrun2). cbv beta iota. unfold bind at 1. rewrite Hrun2.
  eexists. split_and!; [reflexivity| |].
  - intros q. cbn [disk with_output]. rewrite Hdisk1. apply unlink_all_lookup.
  - cbn [stdout with_output print snd]. apply last_snoc.
Qed.

(** X20.  On a directory without children the script ends normally
    whatever its flags, removes nothing, reads no line, and prints the
    line of the walk, the line that says that no duplicate was found,
    the line that announces the removal of invalid files if that was
    asked for, and the line of completion. *)
Theorem main_on_an_empty_directory md5 fuel args w st names :
  arg_directory args <> "" ->
  disk w !! arg_directory args = Some (Dir st names) ->
  scan (disk w) (arg_directory args) names = [] ->
  main md5 (S fuel) args w =
  (Ok tt,
   with_output w
     ([format GETTING_FILES_MSG (arg_directory args); NO_DUPLICATES_MSG] ++
      (if arg_invalid_files args then [REMOVING_INVALID_FILES_MSG] else []) ++
      ["Operation Completed"])).
Proof.
  intros Hne Hd Hscan. unfold main. unfold bind at 1. rewrite valid_arguments_cases.
  apply String.eqb_neq in Hne. rewrite Hne, Hd. cbn [negb].
  unfold bind at 1. unfold ret at 1. unfold bind at 1.
  rewrite get_files_unfold. unfold bind at 1, print at 1.
  unfold bind at 1, os_scandir at 1. cbn [disk]. rewrite Hd, Hscan.
  destruct (arg_invalid_files args), (arg_confirmation args);
    cbn [for_fold]; unfold bind, get_duplicates, print, ret, with_output;
    simpl; rewrite <- !app_assoc; reflexivity.
Qed.

(** ** The further properties on the example worlds *)

Lemma get_files_returns_files_on_disk_witness :
  Forall (fun e => is_file e = true /\
                   exists f, disk nested_world !! path e = Some (File f) /\
                             stat e = metadata f) nested_entries.
Proof.
  apply (get_files_returns_files_on_disk 2 "d" "d" true nested_world nested_entries
           (get_files 2 "d" "d" true nested_world).2).
  vm_compute. reflexivity.
Defined.

Lemma get_files_flat_witness :
  get_files 1 "d" "d" false nested_world =
  (Ok [file_entry "d/a.txt" 2 1; file_entry "d/b.txt" 3 3],
   with_output nested_world [format GETTING_FILES_MSG "d"]).
Proof.
  exact (get_files_flat 0 "d" "d" nested_world dir_stat ["a.txt"; "sub"; "b.txt"]
           eq_refl).
Defined.

Lemma get_files_recursive_extends_witness :
  [file_entry "d/a.txt" 2 1; file_entry "d/b.txt" 3 3] `sublist_of` nested_entries.
Proof.
  apply (get_files_recursive_extends 1 "d" "d" nested_world nested_entries
           (get_files 2 "d" "d" true nested_world).2 dir_stat ["a.txt"; "sub"; "b.txt"]).
  - reflexivity.
  - vm_compute. reflexivity.
Defined.



Lemma invalid_files_are_the_sizes_not_positive_witness :
  exists invalid groups,
    get_duplicates plain_digest scenario_entries scenario_world
      = (Ok (invalid, groups), scenario_world) /\
    ("d/empty.bin" ∈ invalid) /\ ("d/a.txt" ∉ invalid).
Proof.
  destruct (invalid_files_are_the_sizes_not_positive plain_digest scenario_world
              scenario_entries scenario_readable)
    as (invalid & groups & Hrun & Hmem & _).
  exists invalid, groups. split_and!; [done| |].
  - apply Hmem. exists (file_entry "d/empty.bin" 0 4).
    split_and!; [|reflexivity|reflexivity]. right; by left.
  - intros (e & He & Hpath & Hsize)%Hmem.
    repeat (apply elem_of_cons in He as [->|He]); try discriminate;
      [exfalso; apply Hsize; reflexivity|by apply elem_of_nil in He].
Defined.

Lemma groups_are_in_order_of_modification_witness :
  exists invalid groups,
    get_duplicates plain_digest scenario_entries scenario_world
      = (Ok (invalid, groups), scenario_world) /\
    forall g, g ∈ groups -> exists l, g = map path l /\ key_sorted mtime l.
Proof.
  destruct (groups_are_in_order_of_modification plain_digest scenario_world
              scenario_entries scenario_readable)
    as (invalid & groups & Hrun & Hgroups).
  exists invalid, groups. split; [done|].
  intros g (k & l & Hg & Hs & _)%Hgroups. by exists l.
Defined.

Lemma get_duplicates_independent_of_walk_order_witness :
  get_duplicates plain_digest (rev scenario_entries) scenario_world =
  get_duplicates plain_digest scenario_entries scenario_world.
Proof.
  apply get_duplicates_independent_of_walk_order.
  - apply Permutation_rev.
  - compute_done.
Defined.

Lemma unique_content_is_in_no_group_witness :
  exists invalid groups,
    get_duplicates plain_digest scenario_entries scenario_world
      = (Ok (invalid, groups), scenario_world) /\
    forall g, g ∈ groups -> "d/c.txt" ∉ g.
Proof.
  apply (unique_content_is_in_no_group plain_digest scenario_world scenario_entries
           (file_entry "d/c.txt" 3 3)).
  - exact scenario_readable.
  - apply plain_digest_collision_free.
  - compute_done.
  - by left.
  - intros e' He' Hne.
    repeat (apply elem_of_cons in He' as [->|He']); try done.
    by apply elem_of_nil in He'.
Defined.

Lemma triple_answers : answers_from triple_world [false; true].
Proof. intros i b Hi. destruct i as [|[|i]]; simplify_eq/=; reflexivity. Qed.

Lemma remove_duplicates_files_follows_the_answers_witness :
  exists w',
    remove_duplicates_files 0 [["d/a.txt"; "d/b.txt"; "d/c.txt"]] true triple_world
      = (Ok tt, w') /\
    is_Some (disk w' !! "d/b.txt") /\ disk w' !! "d/c.txt" = None.
Proof.
  destruct (remove_duplicates_files_follows_the_answers 0
              [["d/a.txt"; "d/b.txt"; "d/c.txt"]] [false; true] triple_world)
    as (w' & Hrun & _ & Hdisk).
  - reflexivity.
  - exact triple_answers.
  - compute_done.
  - repeat constructor.
  - exists w'. split_and!; [done| |].
    + rewrite (Hdisk "d/b.txt"). by eexists.
    + by rewrite (Hdisk "d/c.txt").
Defined.

Lemma remove_invalid_files_follows_the_answers_witness :
  exists w',
    remove_invalid_files 0 ["d/b.txt"; "d/c.txt"] true triple_world = (Ok tt, w') /\
    is_Some (disk w' !! "d/b.txt") /\ disk w' !! "d/c.txt" = None.
Proof.
  destruct (remove_invalid_files_follows_the_answers 0 ["d/b.txt"; "d/c.txt"]
              [false; true] triple_world)
    as (w' & Hrun & _ & Hdisk & _).
  - reflexivity.
  - exact triple_answers.
  - compute_done.
  - repeat constructor.
  - exists w'. split_and!; [done| |].
    + rewrite (Hdisk "d/b.txt"). by eexists.
    + by rewrite (Hdisk "d/c.txt").
Defined.

Lemma invalid_deletion_failure_ends_the_run_witness :
  remove_invalid_files 0 ["d/a.txt"; "d/b.txt"; "d/c.txt"] false locked_world =
  (Raised PermissionError,
   (remove_invalid_files 0 ["d/a.txt"] false locked_world).2).
Proof.
  refine (proj1 (invalid_deletion_failure_ends_the_run 0 false ["d/a.txt"] "d/b.txt"
                   ["d/c.txt"] locked_world
                   (remove_invalid_files 0 ["d/a.txt"] false locked_world).2
                   PermissionError
                   (remove_invalid_files 0 ["d/a.txt"] false locked_world).2 _ _));
    vm_compute; reflexivity.
Defined.

Lemma small_groups_are_left_alone_witness :
  remove_duplicates_files 0 [["d/a.txt"]; []] true scenario_world
    = (Ok tt, scenario_world).
Proof.
  apply small_groups_are_left_alone. repeat constructor.
Defined.

Lemma scenario_refusing : refusing scenario_world.
Proof. by intros i _. Qed.

Lemma main_refused_leaves_the_disk_witness :
  disk (main plain_digest 1 (mk_arguments "d" true false true) scenario_world).2
    = scenario_disk.
Proof.
  apply (main_refused_leaves_the_disk plain_digest 1
           (mk_arguments "d" true false true) scenario_world eq_refl scenario_refusing).
Defined.

Lemma main_removes_the_later_duplicates_witness :
  exists w',
    main plain_digest 1 (mk_arguments "d" false false false) scenario_world
      = (Ok tt, w') /\
    disk w' !! "d/b.txt" = None /\ is_Some (disk w' !! "d/empty.bin").
Proof.
  destruct (main_removes_the_later_duplicates plain_digest 1 "d" false scenario_world
              scenario_entries (get_files 1 "d" "d" false scenario_world).2)
    as (w' & Hrun & _ & Hdisk & _).
  - discriminate.
  - vm_compute. reflexivity.
  - exact scenario_readable.
  - compute_done.
  - vm_compute. repeat constructor.
  - exists w'. split_and!; [done| |].
    + by rewrite (Hdisk "d/b.txt").
    + rewrite (Hdisk "d/empty.bin"). by eexists.
Defined.

Lemma main_on_an_empty_directory_witness :
  main plain_digest 1 (mk_arguments "d" true true true) bare_world =
  (Ok tt,
   with_output bare_world
     [format GETTING_FILES_MSG "d"; NO_DUPLICATES_MSG;
      REMOVING_INVALID_FILES_MSG; "Operation Completed"]).
Proof.
  apply (main_on_an_empty_directory plain_digest 0 (mk_arguments "d" true true true)
           bare_world dir_stat []); [discriminate|reflexivity..].
Defined.
